(** * topologicpy: vector utilities, mesh extraction and remote mesh interchange

    A shallow embedding of the parts of [Vector.py], [Plotly.py] and
    [Speckle.py] that the specification speaks about, and the theorems that
    settle each of its claims on that embedding.

    Conventions of the embedding.
    - A Python [int] is a [Z].
    - In [Module Vector] a Python [float] is a real number ([R]): arithmetic
      is exact, there is no NaN, no infinity and no signed zero.  Where
      Python raises on a float operation that has no real value (division by
      zero) the model raises too.
    - In [Module VectorFloat] a Python [float] is an element of a type of
      floats whose operations are variables: [Multiply] and
      [AzimuthAltitude] are written over them, with the [OverflowError] of
      [x ** 2] and the [ZeroDivisionError] of [/], and are run on the
      binary64 numbers of the kernel and on the real numbers.
    - The tolerance of [Plotly.DataByTopology], which is only multiplied by
      ten and compared with 3, is a rational ([Q]), so that its loops can be
      run.
    - A Python function returns an [outcome]: a value, a raised exception, or
      [OutOfFuel] for a [while] loop that did not finish within the fuel it
      was given.
    - Python's [None] result is [None] of an [option] inside the outcome. *)

From Stdlib Require Import ZArith List Lia Bool.
From Stdlib Require Ascii String QArith Lqa.
From Stdlib Require Floats Uint63.
From Stdlib Require Import Reals Lra.
Import ListNotations.

#[local] Close Scope R_scope.

Set Implicit Arguments.

(** ** Python semantics shared by the modules *)

Module Py.

Inductive exn : Type :=
| IndexError
| ValueError
| ZeroDivisionError
| OverflowError
| AttributeError
| RemoteError (code : Z).

Inductive outcome (A : Type) : Type :=
| Ret (a : A)
| Raise (e : exn)
| OutOfFuel.

Arguments Ret {A} a.
Arguments Raise {A} e.
Arguments OutOfFuel {A}.

Definition bind {A B : Type} (m : outcome A) (k : A -> outcome B) : outcome B :=
  match m with
  | Ret a => k a
  | Raise e => Raise e
  | OutOfFuel => OutOfFuel
  end.

Definition len {A : Type} (l : list A) : Z := Z.of_nat (List.length l).

(** [l[i]]: a negative index counts from the end, an index out of range
    raises [IndexError]. *)
Definition index {A : Type} (l : list A) (i : Z) : outcome A :=
  let j := (if i <? 0 then i + len l else i)%Z in
  if (j <? 0)%Z then Raise IndexError
  else match nth_error l (Z.to_nat j) with
       | Some a => Ret a
       | None => Raise IndexError
       end.

(** One bound of a slice: a negative bound counts from the end, and the
    result is clamped to [0 .. len l]. *)
Definition clamp {A : Type} (l : list A) (b : Z) : Z :=
  let b' := (if b <? 0 then b + len l else b)%Z in
  Z.min (Z.max 0 b') (len l).

(** [l[lo:hi]] *)
Definition slice {A : Type} (l : list A) (lo hi : Z) : list A :=
  let lo' := clamp l lo in
  let hi' := clamp l hi in
  firstn (Z.to_nat (hi' - lo')) (skipn (Z.to_nat lo') l).

End Py.

Notation "x <- m ;; k" := (Py.bind m (fun x => k))
  (at level 61, m at next level, right associativity).

(** ** Speckle.py: the remote mesh record and the remote operations *)

Module Speckle.
Import String.
Import Py.
#[local] Set Warnings "-register-all".

(** What [Topology.Geometry] hands over: vertex positions (each a list
    [[x, y, z]]) and faces (each a list of indices into the positions). *)
Record Geometry : Type := mkGeometry {
  geom_vertices : list (list R);
  geom_faces : list (list Z)
}.

(** specklepy's [Mesh]: the flattened buffers, and the opacity of its
    render material. *)
Record Mesh : Type := mkMesh {
  vertices : list R;
  faces : list Z;
  renderMaterial_Opacity : R
}.

(** The loop [for v in vertices: m_verts.append(v[0]); ...(v[1]); ...(v[2])]. *)
Fixpoint flatten_vertices (vs : list (list R)) (m_verts : list R)
  : outcome (list R) :=
  match vs with
  | [] => Ret m_verts
  | v :: vs' =>
      x <- index v 0 ;;
      y <- index v 1 ;;
      z <- index v 2 ;;
      flatten_vertices vs' (m_verts ++ [x] ++ [y] ++ [z])
  end.

(** The inner loop [for i in range(n): m_faces.append(f[i])]. *)
Fixpoint append_indices (f : list Z) (idxs : list nat) (m_faces : list Z)
  : outcome (list Z) :=
  match idxs with
  | [] => Ret m_faces
  | i :: idxs' =>
      fi <- index f (Z.of_nat i) ;;
      append_indices f idxs' (m_faces ++ [fi])
  end.

(** The loop [for f in faces: n = len(f); m_faces.append(n); ...]. *)
Fixpoint flatten_faces (fs : list (list Z)) (m_faces : list Z)
  : outcome (list Z) :=
  match fs with
  | [] => Ret m_faces
  | f :: fs' =>
      let n := List.length f in
      m_faces' <- append_indices f (seq 0 n) (m_faces ++ [Z.of_nat n]) ;;
      flatten_faces fs' m_faces'
  end.

Definition mesh_to_speckle_mesh (geom : Geometry) : outcome Mesh :=
  m_verts <- flatten_vertices (geom_vertices geom) [] ;;
  m_faces <- flatten_faces (geom_faces geom) [] ;;
  Ret (mkMesh m_verts m_faces (5 / 10)%R).

(** [add_vertices]: [for i in range(0, len(sverts), 3)], reading
    [sverts[i]], [sverts[i+1]], [sverts[i+2]]; a buffer whose length is not
    a multiple of three runs into [IndexError] on its last step. *)
Fixpoint add_vertices_loop (sverts : list R) (scale : R) (vertices : list (list R))
  : outcome (list (list R)) :=
  match sverts with
  | [] => Ret vertices
  | x :: y :: z :: rest =>
      add_vertices_loop rest scale
        (vertices ++ [[(x * scale)%R; (y * scale)%R; (z * scale)%R]])
  | _ => Raise IndexError
  end.

Definition add_vertices (speckle_mesh : Mesh) (scale : R)
  : outcome (list (list R)) :=
  add_vertices_loop (vertices speckle_mesh) scale [].

(** The count adjustment of [add_faces]: [if n < 3: n += 3]. *)
Definition adjust (n : Z) : Z := if (n <? 3)%Z then (n + 3)%Z else n.

(** The [while i < len(sfaces)] loop of [add_faces]; one unit of fuel per
    iteration. *)
Fixpoint add_faces_loop (fuel : nat) (sfaces : list Z) (i : Z)
  (faces : list (list Z)) : outcome (list (list Z)) :=
  match fuel with
  | O => OutOfFuel
  | S fuel' =>
      if (i <? len sfaces)%Z then
        n <- index sfaces i ;;
        let n := adjust n in
        let i := (i + 1)%Z in
        let faces := faces ++ [slice sfaces i (i + n)] in
        add_faces_loop fuel' sfaces (i + n)%Z faces
      else Ret faces
  end.

(** [add_faces]: the [return faces] sits inside the [if], so an empty face
    buffer falls off the end of the function and yields [None]. *)
Definition add_faces (fuel : nat) (speckle_mesh : Mesh)
  : outcome (option (list (list Z))) :=
  let sfaces := faces speckle_mesh in
  match sfaces with
  | _ :: _ =>
      fs <- add_faces_loop fuel sfaces 0 [] ;;
      Ret (Some fs)
  | [] => Ret None
  end.

(** *** The remote service and its objects *)

Record Commit : Type := mkCommit {
  commit_id : string;
  referencedObject : string
}.

Record Branch : Type := mkBranch {
  branch_id : string;
  branch_name : string;
  commits_items : list Commit
}.

Record Stream : Type := mkStream {
  stream_id : string
}.

Record Client : Type := mkClient {
  host : string
}.

(** [StreamWrapper(url)]: the ids the URL names. *)
Record Wrapper : Type := mkWrapper {
  wrapper_stream_id : string;
  wrapper_commit_id : string
}.

Record Transport : Type := mkTransport {
  transport_stream_id : string;
  transport_client : Client
}.

(** The value of a member of a [Base] object. *)
Inductive attribute : Type :=
| AFloat (x : R)
| AInt (n : Z)
| AStr (s : string)
| AList (items : list attribute)
| AMesh (m : Mesh)
| ABase (members : list (string * attribute))
| AOther.

(** A [Base] object: its dynamic members, by name. *)
Definition Base : Type := list (string * attribute).

(** A call that leaves the adapter: to the remote service through the
    client library, to the terminal, or to the geometry kernel.  The index
    is the type of what the call returns. *)
Inductive call : Type -> Type :=
| getpass : call (option string)
| SpeckleClient (host : string) : call Client
| StreamWrapper (url : string) : call Wrapper
| get_client (wrapper : Wrapper) : call Client
| authenticate_with_token (client : Client) (token : string) : call unit
| ServerTransport (stream_id : string) (client : Client) : call Transport
| stream_list (client : Client) : call (list Stream)
| branch_list (client : Client) (stream_id : string) : call (list Branch)
| branch_get (client : Client) (stream_id name : string) : call Branch
| commit_list (client : Client) (stream_id : string) : call (list Commit)
| commit_create (client : Client) (stream_id object_id branch_name : string)
    (message : string) : call string
| commit_delete (client : Client) (stream_id commit_id : string) : call bool
| operations_send (base : Base) (transports : list Transport) : call string
| operations_receive (obj_id : string) (remote_transport : Transport) : call Base
| Topology_ByGeometry (vertices : list (list R)) (faces : option (list (list Z)))
    : call Geometry.

(** A function of the adapter: it returns, raises, makes a call and goes
    on with the answer, or runs a body under [try: ... except: ...]. *)
Inductive prog (A : Type) : Type :=
| Done (a : A)
| Fail (e : exn)
| Diverge
| Call {T : Type} (c : call T) (k : T -> prog A)
| TryExcept (body handler : prog A).

Arguments Done {A} a.
Arguments Fail {A} e.
Arguments Diverge {A}.
Arguments Call {A T} c k.
Arguments TryExcept {A} body handler.

(** A call that was made, and the exception it raised if it raised one
    ([None] for a call that returned, [Some None] for one that never came
    back). *)
Inductive entry : Type :=
| Entry {T : Type} (c : call T) (failure : option (option exn)).

Definition failure_of (e : entry) : option (option exn) :=
  match e with Entry _ f => f end.

Definition history : Type := list entry.

(** The world outside: what each call answers, given the calls made so
    far. *)
Definition world : Type := forall T : Type, history -> call T -> outcome T.

Definition failure_in {T : Type} (r : outcome T) : option (option exn) :=
  match r with
  | Ret _ => None
  | Raise e => Some (Some e)
  | OutOfFuel => Some None
  end.

(** Running a function against a world, from a history of calls. *)
Fixpoint run {A : Type} (w : world) (p : prog A) (h : history)
  : outcome A * history :=
  match p with
  | Done a => (Ret a, h)
  | Fail e => (Raise e, h)
  | Diverge => (OutOfFuel, h)
  | Call c k =>
      let r := w _ h c in
      let h' := h ++ [Entry c (failure_in r)] in
      match r with
      | Ret v => run w (k v) h'
      | Raise e => (Raise e, h')
      | OutOfFuel => (OutOfFuel, h')
      end
  | TryExcept body handler =>
      match run w body h with
      | (Raise _, h') => run w handler h'
      | result => result
      end
  end.

(** A local computation inside a function: its exception or its divergence
    is the function's. *)
Definition lift {A B : Type} (o : outcome B) (k : B -> prog A) : prog A :=
  match o with
  | Ret b => k b
  | Raise e => Fail e
  | OutOfFuel => Diverge
  end.

(** An argument tested for truth: [confirm], [run]. *)
Inductive pyvalue : Type :=
| PyNoneV
| PyBool (b : bool)
| PyInt (n : Z)
| PyStr (s : string).

Definition truthy (v : pyvalue) : bool :=
  match v with
  | PyNoneV => false
  | PyBool b => b
  | PyInt n => negb (n =? 0)%Z
  | PyStr s => negb (String.eqb s "")
  end.

(** *** The functions of the class *)

Definition SpeckleBranchByID (branch_list0 : list Branch) (branch_id0 : string)
  : option Branch :=
  find (fun branch => String.eqb (branch_id branch) branch_id0) branch_list0.

Definition CommitByID (commit_list0 : list Commit) (commit_id0 : string)
  : option Commit :=
  find (fun commit => String.eqb (commit_id commit) commit_id0) commit_list0.

Definition SpeckleStreamByID (stream_list0 : list Stream) (stream_id0 : string)
  : option Stream :=
  find (fun stream => String.eqb (stream_id stream) stream_id0) stream_list0.

Definition CommitsByBranch (branch : Branch) : list Commit :=
  commits_items branch.

(** The loop of [BranchesByStream]. *)
Fixpoint get_branches (client : Client) (stream : Stream)
  (bList branches : list Branch) : prog (list Branch) :=
  match bList with
  | [] => Done branches
  | b :: bList' =>
      Call (branch_get client (stream_id stream) (branch_name b))
        (fun branch => get_branches client stream bList' (branches ++ [branch]))
  end.

Definition BranchesByStream (client : Client) (stream : Stream)
  : prog (list Branch) :=
  Call (branch_list client (stream_id stream))
    (fun bList => get_branches client stream bList []).

Definition client_with_token (url token : string) : prog (option Client) :=
  Call (SpeckleClient url) (fun client =>
  Call (authenticate_with_token client token) (fun _ =>
  Done (Some client))).

Definition ClientByURL (url : string) (token : option string)
  : prog (option Client) :=
  match token with
  | Some token => client_with_token url token
  | None =>
      Call getpass (fun token =>
      match token with
      | Some token => client_with_token url token
      | None => Done None
      end)
  end.

Definition SpeckleCommitByURL (url token : string) : prog (option Commit) :=
  Call (StreamWrapper url) (fun wrapper =>
  Call (get_client wrapper) (fun client =>
  Call (authenticate_with_token client token) (fun _ =>
  Call (stream_list client) (fun streams =>
  let stream := SpeckleStreamByID streams (wrapper_stream_id wrapper) in
  Call (commit_list client (wrapper_stream_id wrapper)) (fun commits =>
  let commit := CommitByID commits (wrapper_commit_id wrapper) in
  Done commit))))).

Definition SpeckleCommitDelete (client : Client) (stream : Stream)
  (commit : Commit) (confirm : pyvalue) : prog bool :=
  if truthy confirm then
    TryExcept
      (Call (commit_delete client (stream_id stream) (commit_id commit))
         (fun deleted => Done deleted))
      (Done false)
  else Done false.

(** A value of the dictionary [processBase] builds. *)
Inductive dict_value : Type :=
| Plain (a : attribute)
| Dict (d : list (string * dict_value)).

(** [dictionary[name] = value] *)
Fixpoint dict_set (d : list (string * dict_value)) (name : string)
  (v : dict_value) : list (string * dict_value) :=
  match d with
  | [] => [(name, v)]
  | (n, v') :: d' =>
      if String.eqb n name then (n, v) :: d' else (n, v') :: dict_set d' name v
  end.

(** [processBase], by the members of the object. *)
Fixpoint processBase_attribute (a : attribute) : option dict_value :=
  match a with
  | AFloat _ | AInt _ | AStr _ | AList _ => Some (Plain a)
  | ABase members =>
      Some (Dict
        ((fix process (ms : list (string * attribute))
              (dictionary : list (string * dict_value)) :=
            match ms with
            | [] => dictionary
            | (name, a') :: ms' =>
                match processBase_attribute a' with
                | Some v => process ms' (dict_set dictionary name v)
                | None => process ms' dictionary
                end
            end) members []))
  | AMesh _ | AOther => None
  end.

Definition processBase (base : Base) : list (string * dict_value) :=
  match processBase_attribute (ABase base) with
  | Some (Dict d) => d
  | _ => []
  end.

Definition SpeckleGlobalsByStream (client : Client) (stream : Stream)
  : prog (option (list (string * dict_value))) :=
  Call (ServerTransport (stream_id stream) client) (fun transport =>
  Call (branch_get client (stream_id stream) "globals") (fun branch =>
  match commits_items branch with
  | latest_commit :: _ =>
      Call (operations_receive (referencedObject latest_commit) transport)
        (fun globs => Done (Some (processBase globs)))
  | [] => Done None
  end)).

(** [Send] and [SpeckleSendObjects] differ in the branch name they hand to
    [commit.create]: the key for the first, ["gbxml"] for the second. *)
Definition send_to_branch (client : Client) (stream : Stream) (branch : Branch)
  (message key name : string) (data : attribute) (run0 : pyvalue)
  : prog (option Commit) :=
  if negb (truthy run0) then Done None
  else
    let base : Base := [(key, data)] in
    Call (ServerTransport (stream_id stream) client) (fun transport =>
    Call (operations_send base [transport]) (fun obj_id =>
    Call (commit_create client (stream_id stream) obj_id name message)
      (fun commit_id0 => Done (CommitByID (commits_items branch) commit_id0)))).

Definition Send (client : Client) (stream : Stream) (branch : Branch)
  (description message key : string) (data : attribute) (run0 : pyvalue)
  : prog (option Commit) :=
  send_to_branch client stream branch message key key data run0.

Definition SpeckleSendObjects (client : Client) (stream : Stream)
  (branch : Branch) (description message key : string) (data : attribute)
  (run0 : pyvalue) : prog (option Commit) :=
  send_to_branch client stream branch message key "gbxml" data run0.

(** [base[name]] *)
Fixpoint base_get (base : Base) (name : string) : outcome attribute :=
  match base with
  | [] => Raise AttributeError
  | (n, a) :: base' => if String.eqb n name then Ret a else base_get base' name
  end.

Definition mesh_to_native (fuel : nat) (speckle_mesh : Mesh) (scale : R)
  : prog Geometry :=
  lift (add_vertices speckle_mesh scale) (fun vertices =>
  lift (add_faces fuel speckle_mesh) (fun faces =>
  Call (Topology_ByGeometry vertices faces) (fun topology => Done topology))).

Definition Object (fuel : nat) (client : Client) (stream : Stream)
  (branch : Branch) (commit : Commit) : prog Geometry :=
  Call (ServerTransport (stream_id stream) client) (fun transport =>
  let last_obj_id := referencedObject commit in
  Call (operations_receive last_obj_id transport) (fun speckle_mesh =>
  lift (base_get speckle_mesh "@display_value") (fun display_value =>
  match display_value with
  | AMesh m => mesh_to_native fuel m 1%R
  | _ => Fail AttributeError
  end))).

Definition SpeckleStreamByURL (url token : string) : prog (option Stream) :=
  Call (StreamWrapper url) (fun wrapper =>
  Call (get_client wrapper) (fun client =>
  Call (authenticate_with_token client token) (fun _ =>
  Call (stream_list client) (fun streams =>
  Done (SpeckleStreamByID streams (wrapper_stream_id wrapper)))))).

Definition StreamsByClient (item : Client) : prog (list Stream) :=
  Call (stream_list item) (fun streams => Done streams).

(** *** The notions of the specification *)

(** A function that has no [try] in it. *)
Inductive no_catch {A : Type} : prog A -> Prop :=
| no_catch_Done a : no_catch (Done a)
| no_catch_Fail e : no_catch (Fail e)
| no_catch_Diverge : no_catch Diverge
| no_catch_Call T (c : call T) k :
    (forall v : T, no_catch (k v)) -> no_catch (Call c k).

(** A failure propagates through a run: whenever one of the calls made
    during the run raised an exception, the run ends with that exception. *)
Definition propagates {A : Type} (w : world) (p : prog A) (h : history)
  : Prop :=
  exists new : history,
    snd (run w p h) = h ++ new /\
    forall (en : entry) (e : exn),
      In en new -> failure_of en = Some (Some e) ->
      fst (run w p h) = Raise e.

(** The remote operations of the adapter other than [SpeckleCommitDelete],
    each with its arguments. *)
Inductive operation : Type :=
| op_BranchesByStream (client : Client) (stream : Stream)
| op_ClientByURL (url : string) (token : option string)
| op_SpeckleCommitByURL (url token : string)
| op_SpeckleGlobalsByStream (client : Client) (stream : Stream)
| op_Send (client : Client) (stream : Stream) (branch : Branch)
    (description message key : string) (data : attribute) (run0 : pyvalue)
| op_Object (fuel : nat) (client : Client) (stream : Stream) (branch : Branch)
    (commit : Commit)
| op_SpeckleSendObjects (client : Client) (stream : Stream) (branch : Branch)
    (description message key : string) (data : attribute) (run0 : pyvalue)
| op_SpeckleStreamByURL (url token : string)
| op_StreamsByClient (item : Client).

(** The type of what an operation returns, and the operation itself. *)
Definition result_of (op : operation) : Type :=
  match op with
  | op_BranchesByStream _ _ => list Branch
  | op_ClientByURL _ _ => option Client
  | op_SpeckleCommitByURL _ _ => option Commit
  | op_SpeckleGlobalsByStream _ _ => option (list (string * dict_value))
  | op_Send _ _ _ _ _ _ _ _ => option Commit
  | op_Object _ _ _ _ _ => Geometry
  | op_SpeckleSendObjects _ _ _ _ _ _ _ _ => option Commit
  | op_SpeckleStreamByURL _ _ => option Stream
  | op_StreamsByClient _ => list Stream
  end.

Definition perform (op : operation) : prog (result_of op) :=
  match op with
  | op_BranchesByStream client stream => BranchesByStream client stream
  | op_ClientByURL url token => ClientByURL url token
  | op_SpeckleCommitByURL url token => SpeckleCommitByURL url token
  | op_SpeckleGlobalsByStream client stream =>
      SpeckleGlobalsByStream client stream
  | op_Send client stream branch description message key data run0 =>
      Send client stream branch description message key data run0
  | op_Object fuel client stream branch commit =>
      Object fuel client stream branch commit
  | op_SpeckleSendObjects client stream branch description message key data run0 =>
      SpeckleSendObjects client stream branch description message key data run0
  | op_SpeckleStreamByURL url token => SpeckleStreamByURL url token
  | op_StreamsByClient item => StreamsByClient item
  end.

(** A world in which every call raises. *)
Definition failing_world : world := fun T _ _ => Raise (RemoteError 500).

(** A world in which every call returns: a client for the host asked for, a
    transport for the stream asked for, lists of one element, the ids
    ["object"] and ["commit"]. *)
Definition answering_world : world :=
  fun T _ c =>
    match c in call T0 return outcome T0 with
    | getpass => Ret (Some "token"%string)
    | SpeckleClient host0 => Ret (mkClient host0)
    | StreamWrapper url => Ret (mkWrapper "stream" "commit")
    | get_client _ => Ret (mkClient "speckle.xyz")
    | authenticate_with_token _ _ => Ret tt
    | ServerTransport sid client => Ret (mkTransport sid client)
    | stream_list _ => Ret [mkStream "stream"]
    | branch_list _ _ => Ret [mkBranch "b1" "main" []; mkBranch "b2" "globals" []]
    | branch_get _ _ name => Ret (mkBranch "b" name [])
    | commit_list _ _ => Ret [mkCommit "commit" "object"]
    | commit_create _ _ _ _ _ => Ret "commit"%string
    | commit_delete _ _ _ => Ret true
    | operations_send _ _ => Ret "object"%string
    | operations_receive _ _ => Ret []
    | Topology_ByGeometry vs fs => Ret (mkGeometry vs (match fs with Some l => l | None => [] end))
    end.

(** *** The record as a sequence of runs

    A run is an encoded count followed by the indices of one face; [encode_runs]
    lays the runs out one after the other, as the face buffer holds them. *)

Definition encode_runs (runs : list (Z * list Z)) : list Z :=
  flat_map (fun r => fst r :: snd r) runs.

(** A run the decoder reads back in full: the adjusted count is the number
    of indices that follow. *)
Definition run_ok (r : Z * list Z) : Prop :=
  adjust (fst r) = len (snd r).

Definition face_run (f : list Z) : Z * list Z := (len f, f).

(** *** Lemmas on indexing and slicing *)

Lemma len_app {A : Type} (l1 l2 : list A) : len (l1 ++ l2) = (len l1 + len l2)%Z.
Proof. unfold len. rewrite length_app. lia. Qed.

Lemma len_cons {A : Type} (a : A) (l : list A) : len (a :: l) = (1 + len l)%Z.
Proof. unfold len. simpl List.length. lia. Qed.

Lemma len_nonneg {A : Type} (l : list A) : (0 <= len l)%Z.
Proof. unfold len. lia. Qed.

Lemma index_app_at {A : Type} (pre : list A) (c : A) (rest : list A) :
  index (pre ++ c :: rest) (len pre) = Ret c.
Proof.
  unfold index.
  pose proof (len_nonneg pre) as Hp.
  destruct (len pre <? 0)%Z eqn:E; [apply Z.ltb_lt in E; lia|].
  rewrite E.
  unfold len. rewrite Nat2Z.id.
  rewrite nth_error_app2 by lia.
  rewrite Nat.sub_diag. reflexivity.
Qed.

Lemma clamp_inside {A : Type} (l : list A) (b : Z) :
  (0 <= b <= len l)%Z -> clamp l b = b.
Proof.
  intros H. unfold clamp.
  destruct (b <? 0)%Z eqn:E; [apply Z.ltb_lt in E; lia|]. lia.
Qed.

Lemma slice_inside {A : Type} (l : list A) (lo hi : Z) :
  (0 <= lo <= hi)%Z -> (hi <= len l)%Z ->
  slice l lo hi = firstn (Z.to_nat (hi - lo)) (skipn (Z.to_nat lo) l).
Proof.
  intros H1 H2. unfold slice.
  rewrite !clamp_inside by lia. reflexivity.
Qed.

Lemma slice_run {A : Type} (pre : list A) (c : A) (idx rest : list A) :
  slice (pre ++ c :: idx ++ rest) (len pre + 1) (len pre + 1 + len idx) = idx.
Proof.
  pose proof (len_nonneg pre). pose proof (len_nonneg idx).
  pose proof (len_nonneg rest).
  rewrite slice_inside.
  - replace (len pre + 1 + len idx - (len pre + 1))%Z with (len idx) by lia.
    replace (Z.to_nat (len pre + 1)) with (List.length (pre ++ [c])).
    + replace (pre ++ c :: idx ++ rest) with ((pre ++ [c]) ++ idx ++ rest)
        by (rewrite <- app_assoc; reflexivity).
      rewrite skipn_app, skipn_all, Nat.sub_diag. simpl.
      unfold len. rewrite Nat2Z.id.
      rewrite firstn_app, firstn_all, Nat.sub_diag. simpl.
      apply app_nil_r.
    + rewrite length_app. simpl. unfold len. lia.
  - lia.
  - rewrite len_app, len_cons, len_app. lia.
Qed.

(** Decoding a record made of well-formed runs, started at the position
    where the runs begin, appends exactly their index lists. *)
Lemma add_faces_loop_runs (runs : list (Z * list Z)) :
  Forall run_ok runs ->
  forall (fuel : nat) (pre : list Z) (acc : list (list Z)),
    (List.length runs < fuel)%nat ->
    add_faces_loop fuel (pre ++ encode_runs runs) (len pre) acc
    = Ret (acc ++ map snd runs).
Proof.
  induction 1 as [|[c idx] runs Hr _ IH]; intros fuel pre acc Hfuel.
  - destruct fuel as [|fuel]; [simpl in Hfuel; lia|].
    simpl. rewrite !app_nil_r, Z.ltb_irrefl. reflexivity.
  - destruct fuel as [|fuel]; [simpl in Hfuel; lia|].
    simpl in Hfuel.
    cbn [add_faces_loop encode_runs flat_map fst snd].
    fold (encode_runs runs).
    change ((c :: idx) ++ encode_runs runs) with (c :: idx ++ encode_runs runs).
    assert (Hlt : (len pre <? len (pre ++ c :: idx ++ encode_runs runs))%Z = true).
    { apply Z.ltb_lt. rewrite len_app, len_cons.
      pose proof (len_nonneg (idx ++ encode_runs runs)). lia. }
    rewrite Hlt, index_app_at. cbn [bind].
    unfold run_ok in Hr. cbn [fst snd] in Hr. rewrite Hr.
    rewrite slice_run.
    replace (pre ++ c :: idx ++ encode_runs runs)
      with ((pre ++ c :: idx) ++ encode_runs runs)
      by (rewrite <- app_assoc; reflexivity).
    replace (len pre + 1 + len idx)%Z with (len (pre ++ c :: idx)).
    + rewrite IH by lia. cbn [map snd]. rewrite <- app_assoc. reflexivity.
    + rewrite len_app, len_cons. lia.
Qed.

(** *** Lemmas on the encoder *)

Lemma skipn_nth_error {A : Type} (l : list A) (k : nat) (a : A) :
  nth_error l k = Some a -> skipn k l = a :: skipn (S k) l.
Proof.
  revert k. induction l as [|b l IH]; intros [|k] H; try discriminate.
  - injection H as ->. reflexivity.
  - simpl in H. rewrite skipn_cons, (IH k H). reflexivity.
Qed.

Lemma append_indices_seq (f : list Z) (m k : nat) (acc : list Z) :
  (k + m <= List.length f)%nat ->
  append_indices f (seq k m) acc = Ret (acc ++ firstn m (skipn k f)).
Proof.
  revert k acc. induction m as [|m IH]; intros k acc Hk.
  - simpl. rewrite app_nil_r. reflexivity.
  - cbn [seq append_indices].
    destruct (nth_error f k) as [a|] eqn:En.
    2:{ apply nth_error_None in En. lia. }
    assert (Hi : index f (Z.of_nat k) = Ret a).
    { unfold index.
      destruct (Z.of_nat k <? 0)%Z eqn:E; [apply Z.ltb_lt in E; lia|].
      rewrite E, Nat2Z.id, En. reflexivity. }
    rewrite Hi. cbn [bind]. rewrite IH by lia.
    rewrite (skipn_nth_error f k En). cbn [firstn].
    rewrite <- app_assoc. reflexivity.
Qed.

Lemma flatten_faces_runs (fs : list (list Z)) (acc : list Z) :
  flatten_faces fs acc = Ret (acc ++ encode_runs (map face_run fs)).
Proof.
  revert acc. induction fs as [|f fs IH]; intros acc.
  - simpl. rewrite app_nil_r. reflexivity.
  - cbn [flatten_faces]. rewrite append_indices_seq by lia.
    rewrite skipn_O, firstn_all. cbn [bind]. rewrite IH.
    cbn [map encode_runs flat_map face_run fst snd].
    rewrite <- !app_assoc. reflexivity.
Qed.

Lemma flatten_vertices_triples (vs : list (list R)) (acc : list R) :
  Forall (fun v => List.length v = 3%nat) vs ->
  flatten_vertices vs acc = Ret (acc ++ List.concat vs).
Proof.
  intros H. revert acc. induction H as [|v vs Hv _ IH]; intros acc.
  - simpl. rewrite app_nil_r. reflexivity.
  - destruct v as [|x [|y [|z [|? ?]]]]; try discriminate.
    cbn [flatten_vertices]. unfold index. simpl. rewrite IH.
    rewrite <- app_assoc. reflexivity.
Qed.

Lemma add_vertices_loop_triples (vs : list (list R)) (acc : list (list R)) :
  Forall (fun v => List.length v = 3%nat) vs ->
  add_vertices_loop (List.concat vs) 1%R acc = Ret (acc ++ vs).
Proof.
  intros H. revert acc. induction H as [|v vs Hv _ IH]; intros acc.
  - simpl. rewrite app_nil_r. reflexivity.
  - destruct v as [|x [|y [|z [|? ?]]]]; try discriminate.
    cbn [List.concat app add_vertices_loop]. rewrite IH.
    rewrite !Rmult_1_r, <- app_assoc. reflexivity.
Qed.

Lemma face_run_ok (f : list Z) : (3 <= len f)%Z -> run_ok (face_run f).
Proof.
  intros H. unfold run_ok, face_run, adjust. cbn [fst snd].
  destruct (len f <? 3)%Z eqn:E; [apply Z.ltb_lt in E; lia|reflexivity].
Qed.

(** X1.  The record round trip on a buffer that has at least one face:
    when every vertex is a triple and every face has three indices or more,
    encoding the buffer and decoding the record at scale 1 gives back the
    vertex list and the face list. *)
Lemma roundtrip_with_faces (geom : Geometry) (fuel : nat) :
  Forall (fun v => List.length v = 3%nat) (geom_vertices geom) ->
  Forall (fun f => (3 <= len f)%Z) (geom_faces geom) ->
  geom_faces geom <> [] ->
  (List.length (geom_faces geom) < fuel)%nat ->
  exists m : Mesh,
    mesh_to_speckle_mesh geom = Ret m /\
    add_vertices m 1%R = Ret (geom_vertices geom) /\
    add_faces fuel m = Ret (Some (geom_faces geom)).
Proof.
  destruct geom as [vs fs]. cbn [geom_vertices geom_faces].
  intros Hv Hf Hne Hfuel.
  unfold mesh_to_speckle_mesh. cbn [geom_vertices geom_faces].
  rewrite (flatten_vertices_triples [] Hv), flatten_faces_runs.
  cbn [bind app]. eexists. split; [reflexivity|]. split.
  - unfold add_vertices. cbn [vertices].
    apply (add_vertices_loop_triples [] Hv).
  - unfold add_faces. cbn [faces].
    destruct fs as [|f fs]; [contradiction|].
    cbn [map encode_runs flat_map face_run fst snd app].
    change (len f :: f ++ flat_map (fun r => fst r :: snd r) (map face_run fs))
      with ([] ++ encode_runs (map face_run (f :: fs))).
    change 0%Z with (len (@nil Z)).
    rewrite add_faces_loop_runs.
    + cbn [bind app]. rewrite map_map. cbn [face_run snd].
      rewrite map_id. reflexivity.
    + apply Forall_map. revert Hf. apply Forall_impl.
      intros g Hg. apply face_run_ok. exact Hg.
    + rewrite length_map. exact Hfuel.
Qed.

Lemma roundtrip_with_faces_witness :
  let geom :=
    mkGeometry [[0; 0; 0]; [1; 0; 0]; [0; 1; 0]; [1; 1; 0]]%R
               [[0; 1; 2]; [1; 2; 3]]%Z in
  exists m : Mesh,
    mesh_to_speckle_mesh geom = Ret m /\
    add_vertices m 1%R = Ret (geom_vertices geom) /\
    add_faces 3 m = Ret (Some (geom_faces geom)).
Proof.
  cbv zeta. apply roundtrip_with_faces; cbn [geom_vertices geom_faces].
  - repeat constructor.
  - repeat constructor; unfold len; simpl; lia.
  - discriminate.
  - simpl. lia.
Defined.

(** The face buffer of a mesh of two triangles, decoded. *)
Example add_faces_two_triangles :
  add_faces 3 (mkMesh [] [3; 0; 1; 2; 3; 1; 2; 3]%Z 0%R)
  = Ret (Some [[0; 1; 2]; [1; 2; 3]]%Z).
Proof. reflexivity. Qed.

(** A count below [-3] sends the position backwards: on the buffer [[-4]]
    the loop reads the same count again and again. *)
Example add_faces_negative_count :
  add_faces 50 (mkMesh [] [-4]%Z 0%R) = OutOfFuel.
Proof. reflexivity. Qed.

(** C1.  Encoding a flat mesh buffer and decoding the record again does not
    reproduce the buffer when it has no face: the buffer of one vertex and
    no face is encoded without error and its vertex list comes back, but
    [add_faces] answers [None] where the original face list is [[]]. *)
Theorem roundtrip_no_faces (fuel : nat) :
  let geom := mkGeometry [[0; 0; 0]%R] [] in
  Forall (fun f => (3 <= len f)%Z) (geom_faces geom) /\
  (m <- mesh_to_speckle_mesh geom ;; add_vertices m 1%R)
    = Ret (geom_vertices geom) /\
  (m <- mesh_to_speckle_mesh geom ;; add_faces fuel m) = Ret None /\
  (m <- mesh_to_speckle_mesh geom ;; add_faces fuel m)
    <> Ret (Some (geom_faces geom)).
Proof.
  cbn zeta. split; [constructor|].
  assert (Hv : Forall (fun v : list R => List.length v = 3%nat) [[0; 0; 0]%R])
    by (repeat constructor).
  unfold mesh_to_speckle_mesh. cbn [geom_vertices geom_faces].
  rewrite (flatten_vertices_triples [] Hv).
  cbn [flatten_faces bind app List.concat].
  unfold add_vertices, add_faces.
  cbn [vertices faces add_vertices_loop app].
  rewrite !Rmult_1_r.
  repeat split; try reflexivity. discriminate.
Qed.

(** C2.  Decoding a face buffer laid out as runs [count, i0, i1, ...]: where
    a run's count is 0 or 1 the decoder takes [count + 3] indices for the
    face (three for 0, four for 1), and where the count is 3 or more it
    takes exactly [count] indices; on a record all of whose runs are laid
    out that way it returns the runs' index lists, one face per run. *)
Theorem add_faces_count_adjustment
  (runs : list (Z * list Z)) (sverts : list R) (opacity : R) (fuel : nat) :
  runs <> [] ->
  Forall (fun r =>
            ((fst r = 0 \/ fst r = 1) /\ len (snd r) = fst r + 3) \/
            (3 <= fst r /\ len (snd r) = fst r))%Z runs ->
  (List.length runs < fuel)%nat ->
  add_faces fuel (mkMesh sverts (encode_runs runs) opacity)
  = Ret (Some (map snd runs)).
Proof.
  intros Hne Hruns Hfuel.
  unfold add_faces. cbn [faces].
  destruct runs as [|[c idx] runs]; [contradiction|].
  cbn [encode_runs flat_map fst snd app].
  change (c :: idx ++ flat_map (fun r => fst r :: snd r) runs)
    with ([] ++ encode_runs ((c, idx) :: runs)).
  change 0%Z with (len (@nil Z)).
  rewrite add_faces_loop_runs; [reflexivity| |exact Hfuel].
  revert Hruns. apply Forall_impl.
  intros [n l]. unfold run_ok, adjust. cbn [fst snd].
  intros [[[-> | ->] Hl] | [Hn Hl]]; rewrite Hl; try reflexivity.
  destruct (n <? 3)%Z eqn:E; [apply Z.ltb_lt in E; lia|reflexivity].
Qed.

Lemma add_faces_count_adjustment_witness :
  add_faces 4 (mkMesh [] [0; 5; 6; 7; 1; 1; 2; 3; 4; 3; 0; 1; 2]%Z 0%R)
  = Ret (Some [[5; 6; 7]; [1; 2; 3; 4]; [0; 1; 2]]%Z).
Proof.
  apply (@add_faces_count_adjustment
           [(0, [5; 6; 7]); (1, [1; 2; 3; 4]); (3, [0; 1; 2])]%Z [] 0%R 4).
  - discriminate.
  - repeat constructor; cbn; lia.
  - simpl. lia.
Defined.

(** *** Lemmas on runs *)

Lemma run_Call {A T : Type} (w : world) (c : call T) (k : T -> prog A)
  (h : history) :
  run w (Call c k) h
  = match w _ h c with
    | Ret v => run w (k v) (h ++ [Entry c None])
    | Raise e => (Raise e, h ++ [Entry c (Some (Some e))])
    | OutOfFuel => (OutOfFuel, h ++ [Entry c (Some None)])
    end.
Proof. cbn [run]. destruct (w T h c); reflexivity. Qed.

Lemma no_catch_propagates {A : Type} (p : prog A) :
  no_catch p -> forall (w : world) (h : history), propagates w p h.
Proof.
  induction 1 as [a|e| |T c k _ IH]; intros w h.
  - exists []. split; [symmetry; apply app_nil_r|]. intros en e [].
  - exists []. split; [symmetry; apply app_nil_r|]. intros en e' [].
  - exists []. split; [symmetry; apply app_nil_r|]. intros en e [].
  - unfold propagates. rewrite run_Call.
    destruct (w T h c) as [v|e0|].
    + destruct (IH v w (h ++ [Entry c None])) as (new & Hsnd & Hfail).
      exists (Entry c None :: new). split.
      * rewrite Hsnd, <- app_assoc. reflexivity.
      * intros en e [<-|Hin] Hf; [discriminate|]. apply (Hfail en e Hin Hf).
    + exists [Entry c (Some (Some e0))]. split; [reflexivity|].
      intros en e [<-|[]] Hf. cbn in Hf. injection Hf as ->. reflexivity.
    + exists [Entry c (Some None)]. split; [reflexivity|].
      intros en e [<-|[]] Hf. discriminate.
Qed.

Lemma no_catch_lift {A B : Type} (o : outcome B) (k : B -> prog A) :
  (forall b : B, no_catch (k b)) -> no_catch (lift o k).
Proof. intros H. destruct o; cbn [lift]; [apply H|constructor|constructor]. Qed.

Lemma no_catch_get_branches (client : Client) (stream : Stream)
  (bList branches : list Branch) :
  no_catch (get_branches client stream bList branches).
Proof.
  revert branches. induction bList as [|b bList IH]; intros branches.
  - constructor.
  - cbn [get_branches]. constructor. intros v. apply IH.
Qed.

Lemma no_catch_client_with_token (url token : string) :
  no_catch (client_with_token url token).
Proof. repeat (constructor; intros). Qed.

Lemma no_catch_send_to_branch (client : Client) (stream : Stream)
  (branch : Branch) (message key name : string) (data : attribute)
  (run0 : pyvalue) :
  no_catch (send_to_branch client stream branch message key name data run0).
Proof.
  unfold send_to_branch. destruct (negb (truthy run0)).
  - constructor.
  - repeat (constructor; intros).
Qed.

(** No remote operation other than [SpeckleCommitDelete] has a [try]. *)
Lemma no_catch_perform (op : operation) : no_catch (perform op).
Proof.
  destruct op; cbn [perform].
  - constructor. intros bList. apply no_catch_get_branches.
  - destruct token as [token|]; cbn [ClientByURL].
    + apply no_catch_client_with_token.
    + constructor. intros [token|];
        [apply no_catch_client_with_token|constructor].
  - repeat (constructor; intros).
  - unfold SpeckleGlobalsByStream. constructor. intros transport.
    constructor. intros branch0.
    destruct (commits_items branch0); repeat (constructor; intros).
  - apply no_catch_send_to_branch.
  - unfold Object. constructor. intros transport. constructor. intros mesh.
    apply no_catch_lift. intros [x|n|s|items|m|members|]; try constructor.
    unfold mesh_to_native. apply no_catch_lift. intros vs.
    apply no_catch_lift. intros fs. repeat (constructor; intros).
  - apply no_catch_send_to_branch.
  - repeat (constructor; intros).
  - repeat (constructor; intros).
Qed.

(** C8.  [SpeckleCommitDelete] makes no call and returns [False] when
    [confirm] is not true; when it is, it makes the one call
    [client.commit.delete] and returns its answer, or [False] when that
    call raises, whatever the exception.  It is the only operation that
    does so: in every other remote operation of the adapter an exception
    raised by a call ends the operation with that exception. *)
Theorem SpeckleCommitDelete_only_guard
  (w : world) (h : history) (client : Client) (stream : Stream)
  (commit : Commit) (confirm : pyvalue) :
  let delete := commit_delete client (stream_id stream) (commit_id commit) in
  (truthy confirm = false ->
   run w (SpeckleCommitDelete client stream commit confirm) h
   = (Ret false, h)) /\
  (truthy confirm = true ->
   forall deleted : bool, w _ h delete = Ret deleted ->
   run w (SpeckleCommitDelete client stream commit confirm) h
   = (Ret deleted, h ++ [Entry delete None])) /\
  (truthy confirm = true ->
   forall e : exn, w _ h delete = Raise e ->
   run w (SpeckleCommitDelete client stream commit confirm) h
   = (Ret false, h ++ [Entry delete (Some (Some e))])) /\
  (forall op : operation, propagates w (perform op) h).
Proof.
  cbv zeta. unfold SpeckleCommitDelete. repeat split.
  - intros ->. reflexivity.
  - intros -> deleted Hw. cbn [run]. rewrite Hw. reflexivity.
  - intros -> e Hw. cbn [run]. rewrite Hw. reflexivity.
  - intros op. apply no_catch_propagates, no_catch_perform.
Qed.

Lemma SpeckleCommitDelete_only_guard_witness :
  let client := mkClient "speckle.xyz" in
  let stream := mkStream "s1" in
  let commit := mkCommit "c1" "o1" in
  run failing_world (SpeckleCommitDelete client stream commit (PyBool true)) []
  = (Ret false,
     [Entry (commit_delete client "s1" "c1") (Some (Some (RemoteError 500)))]).
Proof.
  cbv zeta.
  apply (proj1 (proj2 (proj2
    (SpeckleCommitDelete_only_guard failing_world []
       (mkClient "speckle.xyz") (mkStream "s1") (mkCommit "c1" "o1")
       (PyBool true))))).
  - reflexivity.
  - reflexivity.
Defined.

(** *** The decoder on arbitrary buffers *)

Lemma index_inside {A : Type} (l : list A) (i : Z) :
  (0 <= i < len l)%Z -> exists a : A, index l i = Ret a /\ In a l.
Proof.
  intros [Hlo Hhi]. unfold index.
  destruct (i <? 0)%Z eqn:E; [apply Z.ltb_lt in E; lia|]. rewrite E.
  destruct (nth_error l (Z.to_nat i)) as [a|] eqn:En.
  - exists a. split; [reflexivity|]. apply (nth_error_In _ _ En).
  - apply nth_error_None in En. unfold len in Hhi. lia.
Qed.

Lemma add_faces_loop_nonneg (sfaces : list Z) :
  Forall (fun n => 0 <= n)%Z sfaces ->
  forall (fuel : nat) (i : Z) (acc : list (list Z)),
    (0 <= i)%Z -> (Z.to_nat (len sfaces - i) < fuel)%nat ->
    exists fs : list (list Z), add_faces_loop fuel sfaces i acc = Ret fs.
Proof.
  intros Hnn. induction fuel as [|fuel IH]; intros i acc Hi Hfuel; [lia|].
  cbn [add_faces_loop].
  destruct (i <? len sfaces)%Z eqn:E.
  - apply Z.ltb_lt in E.
    destruct (@index_inside _ sfaces i (conj Hi E)) as (n & -> & Hin).
    cbn [bind].
    assert (Hn : (0 <= n)%Z) by (apply (proj1 (Forall_forall _ _) Hnn n Hin)).
    assert (Ha : (3 <= adjust n)%Z).
    { unfold adjust. destruct (n <? 3)%Z eqn:E3; [lia|].
      apply Z.ltb_ge in E3. exact E3. }
    apply IH; lia.
  - exists acc. reflexivity.
Qed.

(** X2.  On a face buffer that holds no negative number, [add_faces]
    returns without raising, within as many iterations as the buffer has
    elements: faces for a buffer that is not empty, [None] for the empty
    one, also when the last run is cut short or a count is 0, 1 or 2. *)
Theorem add_faces_nonneg_returns (sverts : list R) (sfaces : list Z)
  (opacity : R) (fuel : nat) :
  Forall (fun n => 0 <= n)%Z sfaces ->
  (List.length sfaces < fuel)%nat ->
  (sfaces <> [] ->
   exists fs : list (list Z),
     add_faces fuel (mkMesh sverts sfaces opacity) = Ret (Some fs)) /\
  (sfaces = [] -> add_faces fuel (mkMesh sverts sfaces opacity) = Ret None).
Proof.
  intros Hnn Hfuel. unfold add_faces. cbn [faces]. split.
  - intros Hne. destruct sfaces as [|n sfaces]; [contradiction|].
    destruct (@add_faces_loop_nonneg (n :: sfaces) Hnn fuel 0 []) as [fs Hfs].
    + lia.
    + rewrite Z.sub_0_r. unfold len. rewrite Nat2Z.id. exact Hfuel.
    + rewrite Hfs. exists fs. reflexivity.
  - intros ->. reflexivity.
Qed.

Lemma add_faces_nonneg_returns_witness :
  ([2; 7; 8; 3; 0]%Z <> [] ->
   exists fs : list (list Z),
     add_faces 6 (mkMesh [] [2; 7; 8; 3; 0]%Z 0%R) = Ret (Some fs)) /\
  ([2; 7; 8; 3; 0]%Z = [] ->
   add_faces 6 (mkMesh [] [2; 7; 8; 3; 0]%Z 0%R) = Ret None).
Proof.
  apply add_faces_nonneg_returns.
  - repeat constructor; lia.
  - simpl. lia.
Defined.

(** *** The vertex decoder *)

Lemma add_vertices_loop_shape (scale : R) (n : nat) :
  forall (sverts : list R) (acc : list (list R)),
    (List.length sverts <= n)%nat ->
    (List.length sverts mod 3 = 0 ->
     exists vs : list (list R),
       add_vertices_loop sverts scale acc = Ret (acc ++ vs) /\
       List.concat vs = map (fun x => (x * scale)%R) sverts /\
       Forall (fun v => List.length v = 3) vs) /\
    (List.length sverts mod 3 <> 0 ->
     add_vertices_loop sverts scale acc = Raise IndexError).
Proof.
  induction n as [|n IH]; intros sverts acc Hn.
  - destruct sverts; [|simpl in Hn; lia]. split.
    + intros _. exists []. rewrite app_nil_r. repeat split. constructor.
    + intros H. contradiction H. reflexivity.
  - destruct sverts as [|x [|y [|z rest]]].
    + split.
      * intros _. exists []. rewrite app_nil_r. repeat split. constructor.
      * intros H. contradiction H. reflexivity.
    + split; [discriminate|reflexivity].
    + split; [discriminate|reflexivity].
    + cbn [add_vertices_loop].
      assert (Hmod : List.length (x :: y :: z :: rest) mod 3
                     = List.length rest mod 3).
      { cbn [List.length].
        replace (S (S (S (List.length rest)))) with (List.length rest + 1 * 3)
          by lia.
        apply Nat.Div0.mod_add. }
      rewrite Hmod.
      destruct (IH rest (acc ++ [[(x * scale)%R; (y * scale)%R; (z * scale)%R]]))
        as [Hok Hbad]; [simpl in Hn; lia|].
      split.
      * intros H. destruct (Hok H) as (vs & -> & Hc & Hall).
        exists ([(x * scale)%R; (y * scale)%R; (z * scale)%R] :: vs).
        split; [rewrite <- app_assoc; reflexivity|]. split.
        -- cbn [List.concat map app]. rewrite Hc. reflexivity.
        -- constructor; [reflexivity|exact Hall].
      * exact Hbad.
Qed.

(** X3.  [add_vertices] returns exactly when the length of the vertex
    buffer is a multiple of three: it then returns vertices of three
    components each which, laid end to end, are the buffer with every number
    multiplied by the scale; on any other length it raises [IndexError]. *)
Theorem add_vertices_shape (speckle_mesh : Mesh) (scale : R) :
  (List.length (vertices speckle_mesh) mod 3 = 0 ->
   exists vs : list (list R),
     add_vertices speckle_mesh scale = Ret vs /\
     List.concat vs = map (fun x => (x * scale)%R) (vertices speckle_mesh) /\
     Forall (fun v => List.length v = 3) vs) /\
  (List.length (vertices speckle_mesh) mod 3 <> 0 ->
   add_vertices speckle_mesh scale = Raise IndexError).
Proof.
  unfold add_vertices.
  apply (@add_vertices_loop_shape scale (List.length (vertices speckle_mesh))
           (vertices speckle_mesh) []).
  lia.
Qed.

(** *** The encoder *)

Lemma flatten_vertices_ok (vs : list (list R)) :
  Forall (fun v => 3 <= List.length v) vs ->
  forall acc : list R,
    flatten_vertices vs acc = Ret (acc ++ flat_map (firstn 3) vs).
Proof.
  induction 1 as [|v vs Hv _ IH]; intros acc.
  - simpl. rewrite app_nil_r. reflexivity.
  - destruct v as [|x [|y [|z v]]]; simpl in Hv; try lia.
    cbn [flatten_vertices]. change (index (x :: y :: z :: v) 0) with (Ret x).
    change (index (x :: y :: z :: v) 1) with (Ret y).
    change (index (x :: y :: z :: v) 2) with (Ret z).
    cbn [bind]. rewrite IH. cbn [flat_map firstn app].
    rewrite <- app_assoc. reflexivity.
Qed.

Lemma flatten_vertices_short (vs : list (list R)) :
  Exists (fun v => List.length v < 3) vs ->
  forall acc : list R, flatten_vertices vs acc = Raise IndexError.
Proof.
  induction vs as [|v vs IH]; intros Hex acc.
  - inversion Hex.
  - destruct v as [|x [|y [|z v]]]; try reflexivity.
    cbn [flatten_vertices]. change (index (x :: y :: z :: v) 0) with (Ret x).
    change (index (x :: y :: z :: v) 1) with (Ret y).
    change (index (x :: y :: z :: v) 2) with (Ret z).
    cbn [bind]. apply IH.
    inversion Hex as [? ? Hlen|? ? Hrest]; subst; [simpl in Hlen; lia|exact Hrest].
Qed.

Lemma length_flat_map_firstn3 (vs : list (list R)) :
  Forall (fun v => 3 <= List.length v) vs ->
  List.length (flat_map (firstn 3) vs) = 3 * List.length vs.
Proof.
  induction 1 as [|v vs Hv _ IH]; [reflexivity|].
  cbn [flat_map]. rewrite length_app, IH, length_firstn.
  cbn [List.length]. lia.
Qed.

(** X4.  [mesh_to_speckle_mesh] returns exactly when every vertex has at
    least three components: the vertex buffer then holds the first three
    components of every vertex, three numbers per vertex, the face buffer
    holds every face as its length followed by its indices, and the opacity
    is one half; with a vertex of fewer than three components it raises
    [IndexError], whatever the faces. *)
Theorem mesh_to_speckle_mesh_shape (geom : Geometry) :
  (Forall (fun v => 3 <= List.length v) (geom_vertices geom) ->
   exists m : Mesh,
     mesh_to_speckle_mesh geom = Ret m /\
     vertices m = flat_map (firstn 3) (geom_vertices geom) /\
     List.length (vertices m) = 3 * List.length (geom_vertices geom) /\
     faces m = flat_map (fun f => len f :: f) (geom_faces geom) /\
     renderMaterial_Opacity m = (1 / 2)%R) /\
  (Exists (fun v => List.length v < 3) (geom_vertices geom) ->
   mesh_to_speckle_mesh geom = Raise IndexError).
Proof.
  destruct geom as [vs fs]. cbn [geom_vertices geom_faces].
  unfold mesh_to_speckle_mesh. cbn [geom_vertices geom_faces]. split.
  - intros H. rewrite (flatten_vertices_ok H), flatten_faces_runs.
    cbn [bind app]. eexists. split; [reflexivity|]. cbn [vertices faces].
    repeat split.
    + apply length_flat_map_firstn3. exact H.
    + unfold encode_runs. rewrite flat_map_concat_map, map_map.
      rewrite <- flat_map_concat_map. reflexivity.
    + cbn [renderMaterial_Opacity]. lra.
  - intros H. rewrite (flatten_vertices_short H). reflexivity.
Qed.

(** *** The lookups by id *)

Lemma find_first {A : Type} (f : A -> bool) (l : list A) :
  match find f l with
  | Some a =>
      exists l1 l2 : list A,
        l = l1 ++ a :: l2 /\ f a = true /\ Forall (fun b => f b = false) l1
  | None => Forall (fun b => f b = false) l
  end.
Proof.
  induction l as [|b l IH]; cbn [find]; [constructor|].
  destruct (f b) eqn:E.
  - exists [], l. repeat split; [exact E|constructor].
  - destruct (find f l) as [a|].
    + destruct IH as (l1 & l2 & -> & Ha & Hl1).
      exists (b :: l1), l2. repeat split; [exact Ha|constructor; assumption].
    + constructor; assumption.
Qed.

(** X5.  [SpeckleBranchByID], [CommitByID] and [SpeckleStreamByID] return
    the first element of the list whose id is the id asked for, and [None]
    when no element has it. *)
Theorem lookups_by_id (id0 : string) :
  (forall branches : list Branch,
     match SpeckleBranchByID branches id0 with
     | Some b =>
         exists l1 l2 : list Branch,
           branches = l1 ++ b :: l2 /\ branch_id b = id0 /\
           Forall (fun b' => branch_id b' <> id0) l1
     | None => Forall (fun b' => branch_id b' <> id0) branches
     end) /\
  (forall commits : list Commit,
     match CommitByID commits id0 with
     | Some c =>
         exists l1 l2 : list Commit,
           commits = l1 ++ c :: l2 /\ commit_id c = id0 /\
           Forall (fun c' => commit_id c' <> id0) l1
     | None => Forall (fun c' => commit_id c' <> id0) commits
     end) /\
  (forall streams : list Stream,
     match SpeckleStreamByID streams id0 with
     | Some s =>
         exists l1 l2 : list Stream,
           streams = l1 ++ s :: l2 /\ stream_id s = id0 /\
           Forall (fun s' => stream_id s' <> id0) l1
     | None => Forall (fun s' => stream_id s' <> id0) streams
     end).
Proof.
  repeat split.
  - intros l. unfold SpeckleBranchByID.
    pose proof (find_first (fun b => String.eqb (branch_id b) id0) l) as H.
    destruct (find _ l) as [b|].
    + destruct H as (l1 & l2 & -> & Hb & Hl1). exists l1, l2.
      repeat split; [apply String.eqb_eq; exact Hb|].
      revert Hl1. apply Forall_impl. intros b'. apply String.eqb_neq.
    + revert H. apply Forall_impl. intros b'. apply String.eqb_neq.
  - intros l. unfold CommitByID.
    pose proof (find_first (fun c => String.eqb (commit_id c) id0) l) as H.
    destruct (find _ l) as [c|].
    + destruct H as (l1 & l2 & -> & Hc & Hl1). exists l1, l2.
      repeat split; [apply String.eqb_eq; exact Hc|].
      revert Hl1. apply Forall_impl. intros c'. apply String.eqb_neq.
    + revert H. apply Forall_impl. intros c'. apply String.eqb_neq.
  - intros l. unfold SpeckleStreamByID.
    pose proof (find_first (fun s => String.eqb (stream_id s) id0) l) as H.
    destruct (find _ l) as [s|].
    + destruct H as (l1 & l2 & -> & Hs & Hl1). exists l1, l2.
      repeat split; [apply String.eqb_eq; exact Hs|].
      revert Hl1. apply Forall_impl. intros s'. apply String.eqb_neq.
    + revert H. apply Forall_impl. intros s'. apply String.eqb_neq.
Qed.

(** *** Sending *)

(** With [run] not true, [Send] and [SpeckleSendObjects] return
    [None] and make no call at all. *)
Theorem Send_not_run (w : world) (h : history) (client : Client)
  (stream : Stream) (branch : Branch) (description message key : string)
  (data : attribute) (run0 : pyvalue) :
  truthy run0 = false ->
  run w (Send client stream branch description message key data run0) h
  = (Ret None, h) /\
  run w (SpeckleSendObjects client stream branch description message key
           data run0) h
  = (Ret None, h).
Proof.
  intros H. unfold Send, SpeckleSendObjects, send_to_branch. rewrite H.
  split; reflexivity.
Qed.

Lemma Send_not_run_witness :
  run failing_world
    (Send (mkClient "speckle.xyz") (mkStream "s") (mkBranch "b" "main" [])
       "" "message" "key" (AInt 1) (PyInt 0)) []
  = (Ret None, []) /\
  run failing_world
    (SpeckleSendObjects (mkClient "speckle.xyz") (mkStream "s")
       (mkBranch "b" "main" []) "" "message" "key" (AInt 1) (PyInt 0)) []
  = (Ret None, []).
Proof.
  apply Send_not_run. reflexivity.
Defined.

Lemma send_to_branch_calls (w : world) (h : history) (client : Client)
  (stream : Stream) (branch : Branch) (message key name : string)
  (data : attribute) (run0 : pyvalue) (transport : Transport)
  (obj_id commit_id0 : string) :
  let c1 := ServerTransport (stream_id stream) client in
  let c2 := operations_send [(key, data)] [transport] in
  let c3 := commit_create client (stream_id stream) obj_id name message in
  truthy run0 = true ->
  w _ h c1 = Ret transport ->
  w _ (h ++ [Entry c1 None]) c2 = Ret obj_id ->
  w _ ((h ++ [Entry c1 None]) ++ [Entry c2 None]) c3 = Ret commit_id0 ->
  run w (send_to_branch client stream branch message key name data run0) h
  = (Ret (CommitByID (commits_items branch) commit_id0),
     ((h ++ [Entry c1 None]) ++ [Entry c2 None]) ++ [Entry c3 None]).
Proof.
  cbv zeta. intros Hrun H1 H2 H3. unfold send_to_branch. rewrite Hrun.
  cbn [negb]. rewrite run_Call, H1, run_Call, H2, run_Call, H3. reflexivity.
Qed.

(** X6.  With [run] true and its three calls answered (the transport, the
    sending of the object, the creation of the commit), [Send] makes
    exactly these three calls, naming the branch by the key, and returns
    the commit of the branch object it was given whose id is the new
    commit's id: [None] when that branch object does not list the new
    commit. *)
Theorem Send_returns_listed_commit (w : world) (h : history) (client : Client)
  (stream : Stream) (branch : Branch) (description message key : string)
  (data : attribute) (run0 : pyvalue) (transport : Transport)
  (obj_id commit_id0 : string) :
  let c1 := ServerTransport (stream_id stream) client in
  let c2 := operations_send [(key, data)] [transport] in
  let c3 := commit_create client (stream_id stream) obj_id key message in
  truthy run0 = true ->
  w _ h c1 = Ret transport ->
  w _ (h ++ [Entry c1 None]) c2 = Ret obj_id ->
  w _ ((h ++ [Entry c1 None]) ++ [Entry c2 None]) c3 = Ret commit_id0 ->
  run w (Send client stream branch description message key data run0) h
  = (Ret (CommitByID (commits_items branch) commit_id0),
     ((h ++ [Entry c1 None]) ++ [Entry c2 None]) ++ [Entry c3 None]) /\
  (Forall (fun c => commit_id c <> commit_id0) (commits_items branch) ->
   fst (run w (Send client stream branch description message key data run0) h)
   = Ret None).
Proof.
  cbv zeta. intros Hrun H1 H2 H3. unfold Send.
  rewrite (send_to_branch_calls w h client stream branch message key key data
             run0 Hrun H1 H2 H3).
  split; [reflexivity|]. intros Hall. cbn [fst]. f_equal.
  unfold CommitByID.
  pose proof (find_first (fun c => String.eqb (commit_id c) commit_id0)
                (commits_items branch)) as Hf.
  destruct (find _ (commits_items branch)) as [c|]; [|reflexivity].
  destruct Hf as (l1 & l2 & E & Hc & _). rewrite E in Hall.
  apply Forall_app in Hall. destruct Hall as [_ Hall].
  inversion Hall as [|? ? Hne _]. apply String.eqb_eq in Hc. contradiction.
Qed.

Lemma Send_returns_listed_commit_witness :
  let client := mkClient "speckle.xyz" in
  let stream := mkStream "stream" in
  let branch := mkBranch "b" "main" [mkCommit "old" "o"] in
  let c1 := ServerTransport "stream" client in
  let c2 := operations_send [("key"%string, AInt 1)] [mkTransport "stream" client] in
  let c3 := commit_create client "stream" "object" "key" "message" in
  run answering_world
    (Send client stream branch "" "message" "key" (AInt 1) (PyBool true)) []
  = (Ret (CommitByID [mkCommit "old" "o"] "commit"),
     (([] ++ [Entry c1 None]) ++ [Entry c2 None]) ++ [Entry c3 None]) /\
  (Forall (fun c => commit_id c <> "commit"%string) [mkCommit "old" "o"] ->
   fst (run answering_world
          (Send client stream branch "" "message" "key" (AInt 1) (PyBool true)) [])
   = Ret None).
Proof.
  cbv zeta.
  apply (@Send_returns_listed_commit answering_world [] (mkClient "speckle.xyz")
           (mkStream "stream") (mkBranch "b" "main" [mkCommit "old" "o"])
           "" "message" "key" (AInt 1) (PyBool true)
           (mkTransport "stream" (mkClient "speckle.xyz")) "object" "commit");
    reflexivity.
Defined.

(** X7.  [SpeckleSendObjects] names the branch ["gbxml"] to
    [commit.create], whatever the key: with [run] true and its three calls
    answered it makes exactly these calls and returns the commit of the
    branch object it was given whose id is the new commit's id. *)
Theorem SpeckleSendObjects_gbxml (w : world) (h : history) (client : Client)
  (stream : Stream) (branch : Branch) (description message key : string)
  (data : attribute) (run0 : pyvalue) (transport : Transport)
  (obj_id commit_id0 : string) :
  let c1 := ServerTransport (stream_id stream) client in
  let c2 := operations_send [(key, data)] [transport] in
  let c3 := commit_create client (stream_id stream) obj_id "gbxml" message in
  truthy run0 = true ->
  w _ h c1 = Ret transport ->
  w _ (h ++ [Entry c1 None]) c2 = Ret obj_id ->
  w _ ((h ++ [Entry c1 None]) ++ [Entry c2 None]) c3 = Ret commit_id0 ->
  run w (SpeckleSendObjects client stream branch description message key data
           run0) h
  = (Ret (CommitByID (commits_items branch) commit_id0),
     ((h ++ [Entry c1 None]) ++ [Entry c2 None]) ++ [Entry c3 None]).
Proof.
  cbv zeta. intros Hrun H1 H2 H3. unfold SpeckleSendObjects.
  apply (send_to_branch_calls w h client stream branch message key "gbxml" data
           run0 Hrun H1 H2 H3).
Qed.

Lemma SpeckleSendObjects_gbxml_witness :
  let client := mkClient "speckle.xyz" in
  let stream := mkStream "stream" in
  let branch := mkBranch "b" "main" [mkCommit "commit" "o"] in
  let c1 := ServerTransport "stream" client in
  let c2 := operations_send [("key"%string, AInt 1)] [mkTransport "stream" client] in
  let c3 := commit_create client "stream" "object" "gbxml" "message" in
  run answering_world
    (SpeckleSendObjects client stream branch "" "message" "key" (AInt 1)
       (PyBool true)) []
  = (Ret (CommitByID [mkCommit "commit" "o"] "commit"),
     (([] ++ [Entry c1 None]) ++ [Entry c2 None]) ++ [Entry c3 None]).
Proof.
  cbv zeta.
  apply (@SpeckleSendObjects_gbxml answering_world [] (mkClient "speckle.xyz")
           (mkStream "stream") (mkBranch "b" "main" [mkCommit "commit" "o"])
           "" "message" "key" (AInt 1) (PyBool true)
           (mkTransport "stream" (mkClient "speckle.xyz")) "object" "commit");
    reflexivity.
Defined.

(** *** BranchesByStream *)

Lemma get_branches_run (w : world) (client : Client) (stream : Stream)
  (bList : list Branch) :
  forall (h : history) (acc branches : list Branch),
    fst (run w (get_branches client stream bList acc) h) = Ret branches ->
    List.length branches = List.length acc + List.length bList /\
    snd (run w (get_branches client stream bList acc) h)
    = h ++ map (fun b => Entry (branch_get client (stream_id stream)
                                  (branch_name b)) None) bList.
Proof.
  induction bList as [|b bList IH]; intros h acc branches H.
  - cbn [get_branches run fst snd map] in *. injection H as <-.
    rewrite app_nil_r. split; [simpl; lia|reflexivity].
  - cbn [get_branches] in *. rewrite run_Call in *.
    destruct (w Branch h (branch_get client (stream_id stream) (branch_name b)))
      as [br| |]; cbn [fst] in H; try discriminate.
    destruct (IH _ _ _ H) as [Hlen Hsnd]. split.
    + rewrite Hlen, length_app. simpl. lia.
    + rewrite Hsnd, <- app_assoc. reflexivity.
Qed.

(** X8.  When [BranchesByStream] returns, it has made one call to list
    the branches of the stream and then one call per listed branch, in the
    order of the list, to get it by name; it returns as many branches as
    were listed. *)
Theorem BranchesByStream_calls (w : world) (h : history) (client : Client)
  (stream : Stream) (bList branches : list Branch) :
  w _ h (branch_list client (stream_id stream)) = Ret bList ->
  fst (run w (BranchesByStream client stream) h) = Ret branches ->
  List.length branches = List.length bList /\
  snd (run w (BranchesByStream client stream) h)
  = (h ++ [Entry (branch_list client (stream_id stream)) None])
    ++ map (fun b => Entry (branch_get client (stream_id stream)
                              (branch_name b)) None) bList.
Proof.
  intros Hw H. unfold BranchesByStream in *. rewrite run_Call, Hw in *.
  destruct (get_branches_run w client stream bList _ [] H) as [Hlen Hsnd].
  split; [exact Hlen|exact Hsnd].
Qed.

Lemma BranchesByStream_calls_witness :
  let client := mkClient "speckle.xyz" in
  let bList := [mkBranch "b1" "main" []; mkBranch "b2" "globals" []] in
  let branches := [mkBranch "b" "main" []; mkBranch "b" "globals" []] in
  List.length branches = List.length bList /\
  snd (run answering_world (BranchesByStream client (mkStream "s")) [])
  = ([] ++ [Entry (branch_list client "s") None])
    ++ map (fun b => Entry (branch_get client "s" (branch_name b)) None) bList.
Proof.
  cbv zeta.
  apply (@BranchesByStream_calls answering_world [] (mkClient "speckle.xyz")
           (mkStream "s")); reflexivity.
Defined.

(** *** ClientByURL *)

(** With a token, [ClientByURL] does not ask for one: its calls are
    the creation of the client and its authentication with that token.
    Without a token it asks the terminal first, and when the terminal gives
    none it returns [None] and creates no client. *)
Theorem ClientByURL_token (w : world) (h : history) (url token : string) :
  let c1 := SpeckleClient url in
  (forall client : Client,
     w _ h c1 = Ret client ->
     w _ (h ++ [Entry c1 None]) (authenticate_with_token client token) = Ret tt ->
     run w (ClientByURL url (Some token)) h
     = (Ret (Some client),
        (h ++ [Entry c1 None])
          ++ [Entry (authenticate_with_token client token) None])) /\
  (w _ h getpass = Ret None ->
   run w (ClientByURL url None) h = (Ret None, h ++ [Entry getpass None])).
Proof.
  cbv zeta. split.
  - intros client H1 H2. cbn [ClientByURL]. unfold client_with_token.
    rewrite run_Call, H1, run_Call, H2. reflexivity.
  - intros H. cbn [ClientByURL]. rewrite run_Call, H. reflexivity.
Qed.

End Speckle.

(** ** Vector.py *)

Module Vector.
Import Ascii String.
Import Py.
#[local] Open Scope R_scope.

(** *** Python and numpy functions on floats, read as functions on reals *)

(** Round half to even, to an integer. *)
Definition round_half_even (x : R) : Z :=
  let f := Int_part x in
  let d := x - IZR f in
  if Rlt_dec d (1 / 2) then f
  else if Rlt_dec (1 / 2) d then (f + 1)%Z
  else if Z.even f then f else (f + 1)%Z.

(** [round(x, ndigits)] *)
Definition round (x : R) (ndigits : Z) : R :=
  IZR (round_half_even (x * powerRZ 10 ndigits)) / powerRZ 10 ndigits.

(** [a / b] on Python floats. *)
Definition truediv (a b : R) : outcome R :=
  if Req_dec_T b 0 then Raise ZeroDivisionError else Ret (a / b).

(** [math.degrees] *)
Definition degrees (x : R) : R := x * (180 / PI).

(** [math.atan2(y, x)] and [np.arctan2(y, x)]: the angle of the point
    [(x, y)], in [(-PI, PI]]. *)
Definition atan2 (y x : R) : R :=
  if Rlt_dec 0 x then atan (y / x)
  else if Rlt_dec x 0 then
    (if Rle_dec 0 y then atan (y / x) + PI else atan (y / x) - PI)
  else if Rlt_dec 0 y then PI / 2
  else if Rlt_dec y 0 then - (PI / 2)
  else 0.

(** [np.log10] *)
Definition log10 (x : R) : R := ln x / ln 10.

(** Sum of the squares of the components. *)
Fixpoint sum_squares (v : list R) : R :=
  match v with
  | [] => 0
  | x :: v' => x ^ 2 + sum_squares v'
  end.

(** [la.norm] of a one-dimensional array. *)
Definition norm (v : list R) : R := sqrt (sum_squares v).

(** [np.dot] of two one-dimensional arrays: the lengths must agree. *)
Fixpoint dot (a b : list R) : outcome R :=
  match a, b with
  | [], [] => Ret 0
  | x :: a', y :: b' => s <- dot a' b' ;; Ret (x * y + s)
  | _, _ => Raise ValueError
  end.

(** [la.norm(np.cross(a, b))]: the cross product is defined for two
    vectors of three components, and for two of two components, where it
    is the scalar [a0*b1 - a1*b0]. *)
Definition cross_norm (a b : list R) : outcome R :=
  match a, b with
  | [a0; a1; a2], [b0; b1; b2] =>
      Ret (norm [a1 * b2 - a2 * b1; a2 * b0 - a0 * b2; a0 * b1 - a1 * b0])
  | [a0; a1], [b0; b1] => Ret (Rabs (a0 * b1 - a1 * b0))
  | _, _ => Raise ValueError
  end.

(** A numpy float result: numpy does not raise on a division by zero or on
    the logarithm of zero, it carries on with [inf] or [nan]. *)
Inductive npfloat : Type :=
| Finite (r : R)
| NaN.

(** An argument that the code tests with [isinstance(vector, list)]. *)
Inductive pyarg : Type :=
| PyList (xs : list R)
| PyTuple (xs : list R)
| PyNone.

Definition default_mantissa : Z := 4.
Definition default_tolerance : R := 1 / 10000.

(** *** The functions of the class *)

(** The last three lines of [Angle]. *)
Definition angle_of (vectorA vectorB : list R) (mantissa : Z) : outcome npfloat :=
  cosang <- dot vectorA vectorB ;;
  sinang <- cross_norm vectorA vectorB ;;
  Ret (Finite (round (degrees (atan2 sinang cosang)) mantissa)).

(** [Vector.Angle].  With one norm zero and the other not, the quotient of
    the norms is [0] or [inf], the test on its logarithm succeeds and the
    division by the zero norm fills a vector with [nan]; with both zero the
    quotient is [nan], the test fails and the angle of the two zero
    vectors is computed as it stands. *)
Definition Angle (vectorA vectorB : list R) (mantissa : Z) : outcome npfloat :=
  let n_v1 := norm vectorA in
  let n_v2 := norm vectorB in
  if Req_dec_T n_v1 0 then
    if Req_dec_T n_v2 0 then angle_of vectorA vectorB mantissa
    else _ <- dot vectorA vectorB ;; _ <- cross_norm vectorA vectorB ;; Ret NaN
  else if Req_dec_T n_v2 0 then
    _ <- dot vectorA vectorB ;; _ <- cross_norm vectorA vectorB ;; Ret NaN
  else if Rlt_dec 10 (Rabs (log10 (n_v1 / n_v2))) then
    angle_of (map (fun x => x / n_v1) vectorA)
             (map (fun x => x / n_v2) vectorB) mantissa
  else angle_of vectorA vectorB mantissa.

(** The dictionary [{"azimuth": ..., "altitude": ...}]. *)
Record AzAlt : Type := mkAzAlt {
  azimuth : R;
  altitude : R
}.

(** The [else] branch of [AzimuthAltitude]: [x] and [y] are not both zero. *)
Definition azimuth_altitude_of (x y z : R) (mantissa : Z) : AzAlt :=
  let azimuth := degrees (atan2 y x) in
  let azimuth := if Rlt_dec 90 azimuth then azimuth - 360 else azimuth in
  let azimuth := round (90 - azimuth) mantissa in
  let xy_distance := sqrt (x ^ 2 + y ^ 2) in
  let altitude := degrees (atan2 z xy_distance) in
  let altitude := round altitude mantissa in
  mkAzAlt azimuth altitude.

(** [Vector.AzimuthAltitude]; [x, y, z = vector] raises [ValueError] unless
    the vector has three components. *)
Definition AzimuthAltitude (vector : list R) (mantissa : Z)
  : outcome (option AzAlt) :=
  match vector with
  | [x; y; z] =>
      if Req_dec_T x 0 then
        if Req_dec_T y 0 then
          if Rlt_dec 0 z then Ret (Some (mkAzAlt 0 90))
          else if Rlt_dec z 0 then Ret (Some (mkAzAlt 0 (-90)))
          else Ret None
        else Ret (Some (azimuth_altitude_of x y z mantissa))
      else Ret (Some (azimuth_altitude_of x y z mantissa))
  | _ => Raise ValueError
  end.

(** [Vector.Reverse] *)
Definition Reverse (vector : pyarg) : option (list R) :=
  match vector with
  | PyList xs => Some (map (fun x => x * -1) xs)
  | _ => None
  end.

(** [str.lower] on one character of an ASCII string. *)
Definition lower_ascii (c : Ascii.ascii) : Ascii.ascii :=
  let n := Ascii.nat_of_ascii c in
  if ((65 <=? n) && (n <=? 90))%nat then Ascii.ascii_of_nat (n + 32) else c.

(** [str.lower] *)
Fixpoint lower (s : String.string) : String.string :=
  match s with
  | String.EmptyString => String.EmptyString
  | String.String c s' => String.String (lower_ascii c) (lower s')
  end.

(** What [Coordinates] returns: the 4x4 matrix, or the list [output]. *)
Inductive coordinates : Type :=
| Matrix (rows : list (list R))
| Output (output : list R).

(** The body of the loop [for axis in outputType]. *)
Definition append_axis (x y z : R) (output : list R) (axis : Ascii.ascii)
  : list R :=
  if Ascii.eqb axis "x"%char then output ++ [x]
  else if Ascii.eqb axis "y"%char then output ++ [y]
  else if Ascii.eqb axis "z"%char then output ++ [z]
  else output.

(** [Vector.Coordinates] *)
Definition Coordinates (vector : pyarg) (outputType : String.string)
  (mantissa : Z) : outcome (option coordinates) :=
  match vector with
  | PyList v =>
      v0 <- index v 0 ;;
      let x := round v0 mantissa in
      v1 <- index v 1 ;;
      let y := round v1 mantissa in
      v2 <- index v 2 ;;
      let z := round v2 mantissa in
      let matrix := [[1; 0; 0; x]; [0; 1; 0; y]; [0; 0; 1; z]; [0; 0; 0; 1]] in
      let outputType := lower outputType in
      if String.eqb outputType "matrix"%string then Ret (Some (Matrix matrix))
      else
        let outputType := String.list_ascii_of_string outputType in
        Ret (Some (Output (fold_left (append_axis x y z) outputType [])))
  | _ => Ret None
  end.

(** *** The notions of the specification *)

(** The component a character of the output type stands for: one of the
    three for the letters x, y and z, none for any other character. *)
Definition component_of (x y z : R) (c : Ascii.ascii) : list R :=
  if Ascii.eqb c "x"%char then [x]
  else if Ascii.eqb c "y"%char then [y]
  else if Ascii.eqb c "z"%char then [z]
  else [].

(** The components the characters of a string stand for, in the order of
    the string and with its repetitions. *)
Definition components_of (x y z : R) (s : String.string) : list R :=
  flat_map (component_of x y z) (String.list_ascii_of_string s).

(** A character that is none of the three axis letters. *)
Definition not_axis (c : Ascii.ascii) : Prop :=
  c <> "x"%char /\ c <> "y"%char /\ c <> "z"%char.

(** *** More functions of the class *)

(** [Vector.Magnitude] *)
Definition Magnitude (vector : list R) (mantissa : Z) : R :=
  round (norm vector) mantissa.

(** [Vector.IsCollinear]; a comparison with [nan] is false. *)
Definition IsCollinear (vectorA vectorB : list R) (tolerance : R)
  : outcome bool :=
  a <- Angle vectorA vectorB default_mantissa ;;
  match a with
  | Finite r => Ret (if Rlt_dec r tolerance then true else false)
  | NaN => Ret false
  end.

(** What a function gives when the model does not keep the kind of an
    exception of numpy. *)
Inductive result (A : Type) : Type :=
| Returns (a : A)
| Raises.

Arguments Returns {A} a.
Arguments Raises {A}.

(** [list(np.cross(a, b))]: a vector for two vectors of three components,
    or of two and three components (the missing third taken as zero); the
    product of two vectors of two components is a scalar, which [list]
    refuses, and other shapes are refused by numpy. *)
Definition cross_list (a b : list R) : result (list R) :=
  match a, b with
  | [a0; a1; a2], [b0; b1; b2] =>
      Returns [a1 * b2 - a2 * b1; a2 * b0 - a0 * b2; a0 * b1 - a1 * b0]
  | [a0; a1], [b0; b1; b2] =>
      Returns [a1 * b2 - 0 * b1; 0 * b0 - a0 * b2; a0 * b1 - a1 * b0]
  | [a0; a1; a2], [b0; b1] =>
      Returns [a1 * 0 - a2 * b1; a2 * b0 - a0 * 0; a0 * b1 - a1 * b0]
  | _, _ => Raises
  end.

(** [Vector.Cross] *)
Definition Cross (vectorA vectorB : pyarg) (mantissa : Z) (tolerance : R)
  : result (option (list R)) :=
  match vectorA, vectorB with
  | PyList a, PyList b =>
      if Rlt_dec (Magnitude a mantissa) tolerance then Returns None
      else if Rlt_dec (Magnitude b mantissa) tolerance then Returns None
      else
        match cross_list a b with
        | Returns vecC =>
            if Rlt_dec (Magnitude vecC default_mantissa) tolerance
            then Returns None
            else
              match vecC with
              | [c0; c1; c2] =>
                  Returns (Some [round c0 mantissa; round c1 mantissa;
                                 round c2 mantissa])
              | _ => Raises
              end
        | Raises => Raises
        end
  | _, _ => Returns None
  end.

(** [x % m] on floats, for a positive [m]. *)
Definition fmod (x m : R) : R := x - m * IZR (Int_part (x / m)).

(** [np.rad2deg] *)
Definition rad2deg (x : R) : R := x * (180 / PI).

(** [Vector.CompassAngle]; in [a and b] the second test is made only when
    the first holds. *)
Definition CompassAngle (vectorA vectorB : list R) (mantissa : Z)
  (tolerance : R) : outcome (option R) :=
  a0 <- index vectorA 0 ;;
  a_small <- (if Rlt_dec (Rabs a0) tolerance
              then a1 <- index vectorA 1 ;;
                   Ret (if Rlt_dec (Rabs a1) tolerance then true else false)
              else Ret false) ;;
  if a_small then Ret None
  else
    b0 <- index vectorB 0 ;;
    b_small <- (if Rlt_dec (Rabs b0) tolerance
                then b1 <- index vectorB 1 ;;
                     Ret (if Rlt_dec (Rabs b1) tolerance then true else false)
                else Ret false) ;;
    if b_small then Ret None
    else
      a0 <- index vectorA 0 ;;
      a1 <- index vectorA 1 ;;
      b0 <- index vectorB 0 ;;
      b1 <- index vectorB 1 ;;
      let ang1 := atan2 a1 a0 in
      let ang2 := atan2 b1 b0 in
      Ret (Some (round (rad2deg (fmod (ang1 - ang2) (2 * PI))) mantissa)).

(** The named directions. *)
Definition North : list R := [0; 1; 0].
Definition NorthEast : list R := [1; 1; 0].
Definition NorthWest : list R := [-1; 1; 0].
Definition South : list R := [0; -1; 0].
Definition SouthEast : list R := [1; -1; 0].
Definition SouthWest : list R := [-1; -1; 0].
Definition East : list R := [1; 0; 0].
Definition West : list R := [-1; 0; 0].
Definition Up : list R := [0; 0; 1].
Definition Down : list R := [0; 0; -1].
Definition XAxis : list R := [1; 0; 0].
Definition YAxis : list R := [0; 1; 0].
Definition ZAxis : list R := [0; 0; 1].

(** [Vector.ByCoordinates] *)
Definition ByCoordinates (x y z : R) : list R := [x; y; z].

(** The horizontal part of a vector is below the tolerance. *)
Definition horizontal_small (x y tolerance : R) : Prop :=
  Rabs x < tolerance /\ Rabs y < tolerance.

(** *** Lemmas on rounding *)

Lemma Int_part_IZR (k : Z) : Int_part (IZR k) = k.
Proof. symmetry. apply Int_part_spec. lra. Qed.

Lemma round_half_even_IZR (k : Z) : round_half_even (IZR k) = k.
Proof.
  unfold round_half_even. rewrite Int_part_IZR.
  destruct (Rlt_dec (IZR k - IZR k) (1 / 2)) as [_|H]; [reflexivity|].
  exfalso. apply H. lra.
Qed.

Lemma Int_part_bounds (x : R) : IZR (Int_part x) <= x < IZR (Int_part x) + 1.
Proof. destruct (base_Int_part x). lra. Qed.

Lemma round_half_even_le (x : R) (k : Z) :
  x <= IZR k -> (round_half_even x <= k)%Z.
Proof.
  intros H. pose proof (Int_part_bounds x) as [Hlo Hhi].
  unfold round_half_even.
  assert (Hf : (Int_part x <= k)%Z) by (apply le_IZR; lra).
  destruct (Rlt_dec (x - IZR (Int_part x)) (1 / 2)) as [_|Hd]; [exact Hf|].
  assert (Hlt : (Int_part x < k)%Z) by (apply lt_IZR; lra).
  destruct (Rlt_dec (1 / 2) (x - IZR (Int_part x))); [lia|].
  destruct (Z.even (Int_part x)); lia.
Qed.

Lemma round_half_even_ge (x : R) (k : Z) :
  IZR k <= x -> (k <= round_half_even x)%Z.
Proof.
  intros H. pose proof (Int_part_bounds x) as [Hlo Hhi].
  assert (Hf : (k < Int_part x + 1)%Z).
  { apply lt_IZR. rewrite plus_IZR. lra. }
  unfold round_half_even.
  destruct (Rlt_dec (x - IZR (Int_part x)) (1 / 2)); [lia|].
  destruct (Rlt_dec (1 / 2) (x - IZR (Int_part x))); [lia|].
  destruct (Z.even (Int_part x)); lia.
Qed.

Lemma powerRZ_10_nonneg (m : Z) :
  (0 <= m)%Z -> powerRZ 10 m = IZR (10 ^ m).
Proof.
  intros H. rewrite <- (Z2Nat.id m H) at 1.
  rewrite <- pow_powerRZ, pow_IZR, Z2Nat.id by exact H. reflexivity.
Qed.

Lemma powerRZ_10_pos (m : Z) : 0 < powerRZ 10 m.
Proof. apply powerRZ_lt. lra. Qed.

Lemma round_IZR (k m : Z) : (0 <= m)%Z -> round (IZR k) m = IZR k.
Proof.
  intros H. unfold round.
  pose proof (powerRZ_10_pos m) as Hp.
  rewrite powerRZ_10_nonneg in * by exact H.
  rewrite <- mult_IZR, round_half_even_IZR, mult_IZR.
  field. lra.
Qed.

Lemma round_0 (m : Z) : round 0 m = 0.
Proof.
  unfold round. rewrite Rmult_0_l, round_half_even_IZR.
  unfold Rdiv. apply Rmult_0_l.
Qed.

Lemma round_between (x : R) (lo hi m : Z) :
  (0 <= m)%Z -> IZR lo <= x <= IZR hi -> IZR lo <= round x m <= IZR hi.
Proof.
  intros Hm [H1 H2]. unfold round.
  pose proof (powerRZ_10_pos m) as Hp.
  rewrite powerRZ_10_nonneg in * by exact Hm.
  set (P := (10 ^ m)%Z) in *.
  assert (Hl : (lo * P <= round_half_even (x * IZR P))%Z).
  { apply round_half_even_ge. rewrite mult_IZR. nra. }
  assert (Hh : (round_half_even (x * IZR P) <= hi * P)%Z).
  { apply round_half_even_le. rewrite mult_IZR. nra. }
  apply IZR_le in Hl, Hh. rewrite mult_IZR in Hl, Hh.
  split.
  - apply Rmult_le_reg_r with (IZR P); [exact Hp|].
    unfold Rdiv. rewrite Rmult_assoc, Rinv_l by lra. lra.
  - apply Rmult_le_reg_r with (IZR P); [exact Hp|].
    unfold Rdiv. rewrite Rmult_assoc, Rinv_l by lra. lra.
Qed.

(** C3.  For a vector [[0, 0, z]], [AzimuthAltitude] returns azimuth 0 and
    altitude 90 when [z > 0], azimuth 0 and altitude -90 when [z < 0], and
    no result ([None]) when [z = 0]. *)
Theorem AzimuthAltitude_vertical (z : R) (mantissa : Z) :
  (0 < z -> AzimuthAltitude [0; 0; z] mantissa = Ret (Some (mkAzAlt 0 90))) /\
  (z < 0 -> AzimuthAltitude [0; 0; z] mantissa = Ret (Some (mkAzAlt 0 (-90)))) /\
  (z = 0 -> AzimuthAltitude [0; 0; z] mantissa = Ret None).
Proof.
  unfold AzimuthAltitude.
  destruct (Req_dec_T 0 0) as [_|H]; [|contradiction H; reflexivity].
  repeat split; intros Hz.
  - destruct (Rlt_dec 0 z); [reflexivity|contradiction].
  - destruct (Rlt_dec 0 z); [lra|].
    destruct (Rlt_dec z 0); [reflexivity|contradiction].
  - destruct (Rlt_dec 0 z); [lra|].
    destruct (Rlt_dec z 0); [lra|reflexivity].
Qed.

Lemma AzimuthAltitude_vertical_witness :
  AzimuthAltitude [0; 0; 5] default_mantissa = Ret (Some (mkAzAlt 0 90)) /\
  AzimuthAltitude [0; 0; -5] default_mantissa = Ret (Some (mkAzAlt 0 (-90))) /\
  AzimuthAltitude [0; 0; 0] default_mantissa = Ret None.
Proof.
  split; [|split].
  - apply (proj1 (AzimuthAltitude_vertical 5 default_mantissa)). lra.
  - apply (proj1 (proj2 (AzimuthAltitude_vertical (-5) default_mantissa))). lra.
  - apply (proj2 (proj2 (AzimuthAltitude_vertical 0 default_mantissa))). reflexivity.
Defined.

Lemma atan2_0_pos (x : R) : 0 < x -> atan2 0 x = 0.
Proof.
  intros H. unfold atan2.
  destruct (Rlt_dec 0 x); [|contradiction].
  unfold Rdiv. rewrite Rmult_0_l. apply atan_0.
Qed.

Lemma atan2_0_neg (x : R) : x < 0 -> atan2 0 x = PI.
Proof.
  intros H. unfold atan2.
  destruct (Rlt_dec 0 x); [lra|].
  destruct (Rlt_dec x 0); [|contradiction].
  destruct (Rle_dec 0 0) as [_|H0]; [|exfalso; apply H0; lra].
  unfold Rdiv. rewrite Rmult_0_l, atan_0. lra.
Qed.

Lemma degrees_0 : degrees 0 = 0.
Proof. unfold degrees. apply Rmult_0_l. Qed.

Lemma degrees_PI : degrees PI = 180.
Proof. unfold degrees. field. apply PI_neq0. Qed.

Lemma log10_1 : log10 1 = 0.
Proof. unfold log10. rewrite ln_1. unfold Rdiv. apply Rmult_0_l. Qed.

Lemma sum_squares_nonneg (v : list R) : 0 <= sum_squares v.
Proof.
  induction v as [|x v IH]; simpl; [lra|].
  pose proof (pow2_ge_0 x). simpl in *. lra.
Qed.

Lemma norm_1_sum_squares (v : list R) : norm v = 1 -> sum_squares v = 1.
Proof.
  unfold norm. intros H.
  rewrite <- (sqrt_def (sum_squares v) (sum_squares_nonneg v)), H. lra.
Qed.

Lemma norm_zero3 : norm [0; 0; 0] = 0.
Proof.
  unfold norm. simpl. replace (0 * (0 * 1) + (0 * (0 * 1) + (0 * (0 * 1) + 0))) with 0 by ring.
  apply sqrt_0.
Qed.

(** The angle of a vector of norm one with a copy of itself scaled by [s],
    where [s] is 1 or -1. *)
Lemma Angle_unit_scaled (x y z s : R) (mantissa : Z) :
  norm [x; y; z] = 1 -> s * s = 1 ->
  Angle [x; y; z] [x * s; y * s; z * s] mantissa
  = Ret (Finite (round (degrees (atan2 0 s)) mantissa)).
Proof.
  intros Hn Hs.
  assert (Hsum : x * x + y * y + z * z = 1).
  { apply norm_1_sum_squares in Hn. simpl in Hn. lra. }
  assert (Hn' : norm [x * s; y * s; z * s] = 1).
  { unfold norm. simpl.
    replace (x * s * (x * s * 1) + (y * s * (y * s * 1) + (z * s * (z * s * 1) + 0)))
      with ((x * x + y * y + z * z) * (s * s)) by ring.
    rewrite Hsum, Hs, Rmult_1_r. apply sqrt_1. }
  unfold Angle. rewrite Hn, Hn'.
  destruct (Req_dec_T 1 0) as [H|_]; [lra|].
  replace (1 / 1) with 1 by field. rewrite log10_1, Rabs_R0.
  destruct (Rlt_dec 10 0) as [H|_]; [lra|].
  unfold angle_of, dot, cross_norm. cbn [bind].
  replace (y * (z * s) - z * (y * s)) with 0 by ring.
  replace (z * (x * s) - x * (z * s)) with 0 by ring.
  replace (x * (y * s) - y * (x * s)) with 0 by ring.
  rewrite norm_zero3.
  replace (x * (x * s) + (y * (y * s) + (z * (z * s) + 0)))
    with ((x * x + y * y + z * z) * s) by ring.
  rewrite Hsum, Rmult_1_l. reflexivity.
Qed.

(** C5.  For a vector [a] of norm one, [Angle(a, a)] is 0 and
    [Angle(a, Reverse(a))] is 180, where [Reverse] negates every component
    (the mantissa, 4 by default, is any number of digits that is not
    negative). *)
Theorem Angle_self_and_reverse (x y z : R) (mantissa : Z) :
  norm [x; y; z] = 1 -> (0 <= mantissa)%Z ->
  Angle [x; y; z] [x; y; z] mantissa = Ret (Finite 0) /\
  exists r : list R,
    Reverse (PyList [x; y; z]) = Some r /\
    r = [- x; - y; - z] /\
    Angle [x; y; z] r mantissa = Ret (Finite 180).
Proof.
  intros Hn Hm. split.
  - pose proof (@Angle_unit_scaled x y z 1 mantissa Hn) as H.
    rewrite !Rmult_1_r in H. rewrite H by reflexivity.
    rewrite atan2_0_pos by lra. rewrite degrees_0, round_0. reflexivity.
  - exists [x * -1; y * -1; z * -1]. split; [reflexivity|]. split.
    + f_equal; [|f_equal; [|f_equal]]; ring.
    + rewrite (@Angle_unit_scaled x y z (-1) mantissa Hn) by ring.
      rewrite atan2_0_neg by lra.
      rewrite degrees_PI, round_IZR by exact Hm. reflexivity.
Qed.

Lemma Angle_self_and_reverse_witness :
  Angle [0; 1; 0] [0; 1; 0] default_mantissa = Ret (Finite 0) /\
  exists r : list R,
    Reverse (PyList [0; 1; 0]) = Some r /\
    r = [- 0; - 1; - 0] /\
    Angle [0; 1; 0] r default_mantissa = Ret (Finite 180).
Proof.
  apply Angle_self_and_reverse.
  - unfold norm. simpl.
    replace (0 * (0 * 1) + (1 * (1 * 1) + (0 * (0 * 1) + 0))) with 1 by ring.
    apply sqrt_1.
  - unfold default_mantissa. lia.
Defined.

Lemma fold_left_append_axis (x y z : R) (l : list Ascii.ascii) (acc : list R) :
  fold_left (append_axis x y z) l acc = acc ++ flat_map (component_of x y z) l.
Proof.
  revert acc. induction l as [|c l IH]; intros acc; simpl.
  - rewrite app_nil_r. reflexivity.
  - rewrite IH. unfold append_axis, component_of.
    destruct (Ascii.eqb c "x"); [rewrite <- app_assoc; reflexivity|].
    destruct (Ascii.eqb c "y"); [rewrite <- app_assoc; reflexivity|].
    destruct (Ascii.eqb c "z"); [rewrite <- app_assoc; reflexivity|].
    reflexivity.
Qed.

Lemma components_of_no_axis (x y z : R) (s : String.string) :
  Forall not_axis (String.list_ascii_of_string s) -> components_of x y z s = [].
Proof.
  unfold components_of. induction 1 as [|c l [Hx [Hy Hz]] _ IH]; simpl.
  - reflexivity.
  - rewrite IH. unfold component_of.
    apply Ascii.eqb_neq in Hx, Hy, Hz. rewrite Hx, Hy, Hz. reflexivity.
Qed.

(** C10.  For a vector of three components and an output type whose lower
    case form is not "matrix", [Coordinates] returns the rounded components
    that the letters x, y and z of the lower-cased string stand for, in the
    order of the string and with its repetitions, every other character
    being skipped; a string with none of the three letters gives the empty
    list, and an argument that is not a list gives [None]. *)
Theorem Coordinates_axes
  (x y z : R) (outputType : String.string) (mantissa : Z) :
  lower outputType <> "matrix"%string ->
  Coordinates (PyList [x; y; z]) outputType mantissa
  = Ret (Some (Output (components_of (round x mantissa) (round y mantissa)
                                     (round z mantissa) (lower outputType)))) /\
  (Forall not_axis (String.list_ascii_of_string (lower outputType)) ->
   Coordinates (PyList [x; y; z]) outputType mantissa = Ret (Some (Output []))) /\
  (forall xs : list R, Coordinates (PyTuple xs) outputType mantissa = Ret None) /\
  Coordinates PyNone outputType mantissa = Ret None.
Proof.
  intros Hm.
  assert (H : Coordinates (PyList [x; y; z]) outputType mantissa
              = Ret (Some (Output (components_of (round x mantissa)
                       (round y mantissa) (round z mantissa) (lower outputType))))).
  { unfold Coordinates.
    change (index [x; y; z] 0) with (Ret x).
    change (index [x; y; z] 1) with (Ret y).
    change (index [x; y; z] 2) with (Ret z).
    cbn [bind]. apply String.eqb_neq in Hm. rewrite Hm.
    rewrite fold_left_append_axis. reflexivity. }
  split; [exact H|]. split; [|split].
  - intros Hno. rewrite H, components_of_no_axis by exact Hno. reflexivity.
  - reflexivity.
  - reflexivity.
Qed.

Lemma Coordinates_axes_witness :
  Coordinates (PyList [1; 2; 3]) "ZxQx" 0
  = Ret (Some (Output (components_of (round 1 0) (round 2 0) (round 3 0)
                                     (lower "ZxQx")))).
Proof.
  apply (Coordinates_axes 1 2 3 "ZxQx" 0).
  discriminate.
Defined.

Lemma atan_le_x (x : R) : 0 <= x -> atan x <= x.
Proof.
  intros Hx.
  assert (pr : derivable (id - atan)%F).
  { apply derivable_minus; [apply derivable_id|exact derivable_pt_atan]. }
  assert (Hinc : increasing (id - atan)%F).
  { apply (nonneg_derivative_1 _ pr). intros t.
    rewrite (pr_nu _ t (pr t)
               (derivable_pt_minus id atan t (derivable_pt_id t)
                  (derivable_pt_atan t))).
    rewrite derive_pt_minus, derive_pt_id, derive_pt_atan.
    pose proof (Rle_0_sqr t) as Ht.
    assert (1 / (1 + t²) <= 1); [|lra].
    apply Rmult_le_reg_r with (1 + t²); [lra|].
    unfold Rdiv. rewrite Rmult_assoc, Rinv_l; lra. }
  specialize (Hinc 0 x Hx). unfold minus_fct, id in Hinc.
  rewrite atan_0 in Hinc. lra.
Qed.

Lemma PI_gt_3 : 3 < PI.
Proof. pose proof PI2_3_2. lra. Qed.

Lemma atan2_range (y x : R) : - PI < atan2 y x <= PI.
Proof.
  pose proof PI_gt_3 as Hpi. pose proof (atan_bound (y / x)) as [Hlo Hhi].
  unfold atan2.
  destruct (Rlt_dec 0 x) as [Hx|Hx]; [lra|].
  destruct (Rlt_dec x 0) as [Hx'|Hx'].
  - assert (Hinv : / x < 0) by (apply Rinv_lt_0_compat; exact Hx').
    destruct (Rle_dec 0 y) as [Hy|Hy].
    + assert (Hq : y / x <= 0) by (unfold Rdiv; nra).
      assert (atan (y / x) <= 0).
      { destruct Hq as [Hq|Hq].
        - pose proof (atan_increasing _ _ Hq) as H. rewrite atan_0 in H. lra.
        - rewrite Hq, atan_0. lra. }
      lra.
    + assert (Hq : 0 < y / x) by (unfold Rdiv; nra).
      pose proof (atan_increasing _ _ Hq) as H. rewrite atan_0 in H. lra.
  - destruct (Rlt_dec 0 y); [lra|]. destruct (Rlt_dec y 0); lra.
Qed.

Lemma degrees_range (a : R) : - PI < a <= PI -> -180 < degrees a <= 180.
Proof.
  intros [Hlo Hhi]. pose proof PI_gt_3 as Hpi.
  assert (E : degrees a * PI = a * 180).
  { unfold degrees. field. lra. }
  split; nra.
Qed.

Lemma atan2_north_west (y x : R) :
  x < 0 -> 0 < y -> atan2 y x = PI / 2 + atan (- x / y).
Proof.
  intros Hx Hy. unfold atan2.
  destruct (Rlt_dec 0 x); [lra|].
  destruct (Rlt_dec x 0); [|contradiction].
  destruct (Rle_dec 0 y); [|lra].
  assert (Hw : 0 < - x / y) by (apply Rdiv_lt_0_compat; lra).
  replace (y / x) with (- / (- x / y)) by (field; lra).
  rewrite atan_opp, (atan_inv _ Hw). lra.
Qed.

Lemma round_half_even_just_below (x : R) (k : Z) :
  IZR k - 1 / 2 < x < IZR k -> round_half_even x = k.
Proof.
  intros [Hlo Hhi]. unfold round_half_even.
  assert (E : Int_part x = (k - 1)%Z).
  { symmetry. apply Int_part_spec. rewrite minus_IZR. lra. }
  rewrite E, minus_IZR.
  destruct (Rlt_dec (x - (IZR k - 1)) (1 / 2)); [lra|].
  destruct (Rlt_dec (1 / 2) (x - (IZR k - 1))); [lia|lra].
Qed.

(** *** Further lemmas on norms and rounding *)

Lemma sum_squares_scale (c : R) (v : list R) :
  sum_squares (map (fun x => x * c) v) = c ^ 2 * sum_squares v.
Proof.
  induction v as [|x v IH]; simpl.
  - ring.
  - simpl in IH. rewrite IH. ring.
Qed.

Lemma norm_scale (c : R) (v : list R) :
  norm (map (fun x => x * c) v) = Rabs c * norm v.
Proof.
  unfold norm. rewrite sum_squares_scale.
  rewrite sqrt_mult_alt by (simpl; nra).
  f_equal. replace (c ^ 2) with (Rsqr c) by (unfold Rsqr; ring).
  apply sqrt_Rsqr_abs.
Qed.

Lemma round_half_even_opp (x : R) :
  round_half_even (- x) = (- round_half_even x)%Z.
Proof.
  pose proof (Int_part_bounds x) as [Hlo Hhi].
  set (f := Int_part x) in *.
  destruct (Req_dec_T x (IZR f)) as [E|NE].
  - rewrite E, <- opp_IZR, !round_half_even_IZR. reflexivity.
  - assert (Ef : Int_part (- x) = (- f - 1)%Z).
    { symmetry. apply Int_part_spec.
      rewrite minus_IZR, opp_IZR. lra. }
    unfold round_half_even. rewrite Ef. fold f.
    rewrite minus_IZR, opp_IZR.
    destruct (Rlt_dec (x - IZR f) (1 / 2)) as [H1|H1];
      destruct (Rlt_dec (- x - (- IZR f - 1)) (1 / 2)) as [H2|H2]; try lra.
    + destruct (Rlt_dec (1 / 2) (- x - (- IZR f - 1))); [lia|lra].
    + destruct (Rlt_dec (1 / 2) (x - IZR f)); [lia|lra].
    + destruct (Rlt_dec (1 / 2) (x - IZR f)) as [H3|H3];
        destruct (Rlt_dec (1 / 2) (- x - (- IZR f - 1))) as [H4|H4]; try lra.
      replace (- f - 1)%Z with (- (f + 1))%Z by lia.
      rewrite Z.even_opp, Z.even_add. simpl (Z.even 1).
      destruct (Z.even f); simpl; lia.
Qed.

Lemma round_opp (x : R) (m : Z) : round (- x) m = - round x m.
Proof.
  unfold round.
  replace (- x * powerRZ 10 m) with (- (x * powerRZ 10 m)) by ring.
  rewrite round_half_even_opp, opp_IZR.
  pose proof (powerRZ_10_pos m). field. lra.
Qed.

(** *** Reverse *)

Lemma map_opp_involutive (v : list R) :
  map (fun x => x * -1) (map (fun x => x * -1) v) = v.
Proof.
  induction v as [|x v IH]; simpl; [reflexivity|].
  rewrite IH. f_equal. ring.
Qed.

(** X9.  Reversing a vector twice gives the vector back, and reversing
    keeps the number of components, the norm and the magnitude. *)
Theorem Reverse_involutive (v : list R) (mantissa : Z) :
  exists r : list R,
    Reverse (PyList v) = Some r /\
    Reverse (PyList r) = Some v /\
    List.length r = List.length v /\
    norm r = norm v /\
    Magnitude r mantissa = Magnitude v mantissa.
Proof.
  exists (map (fun x => x * -1) v). cbn [Reverse].
  assert (Hn : norm (map (fun x => x * -1) v) = norm v).
  { rewrite norm_scale.
    replace (Rabs (-1)) with 1 by (unfold Rabs; destruct (Rcase_abs (-1)); lra).
    ring. }
  repeat split.
  - rewrite map_opp_involutive. reflexivity.
  - apply length_map.
  - exact Hn.
  - unfold Magnitude. rewrite Hn. reflexivity.
Qed.

(** *** Angle and IsCollinear *)

(** X16.  For a vector of norm one and the default mantissa, [IsCollinear]
    answers [True] on the vector and itself for every positive tolerance,
    and [False] on the vector and its reverse for every tolerance up to
    180: two opposite vectors are not collinear for it. *)
Theorem IsCollinear_self_and_reverse (x y z tolerance : R) :
  norm [x; y; z] = 1 ->
  (0 < tolerance -> IsCollinear [x; y; z] [x; y; z] tolerance = Ret true) /\
  (tolerance <= 180 ->
   IsCollinear [x; y; z] [x * -1; y * -1; z * -1] tolerance = Ret false).
Proof.
  intros Hn. unfold IsCollinear. split; intros Ht.
  - pose proof (@Angle_unit_scaled x y z 1 default_mantissa Hn) as H.
    rewrite !Rmult_1_r in H. rewrite H by reflexivity. cbn [bind].
    rewrite atan2_0_pos by lra. rewrite degrees_0, round_0.
    destruct (Rlt_dec 0 tolerance); [reflexivity|contradiction].
  - rewrite (@Angle_unit_scaled x y z (-1) default_mantissa Hn) by ring.
    cbn [bind]. rewrite atan2_0_neg by lra.
    rewrite degrees_PI, round_IZR by (unfold default_mantissa; lia).
    destruct (Rlt_dec 180 tolerance); [lra|reflexivity].
Qed.

Lemma IsCollinear_self_and_reverse_witness :
  IsCollinear [0; 1; 0] [0; 1; 0] (1 / 10) = Ret true /\
  IsCollinear [0; 1; 0] [0 * -1; 1 * -1; 0 * -1] (1 / 10) = Ret false.
Proof.
  assert (Hn : norm [0; 1; 0] = 1).
  { unfold norm. simpl.
    replace (0 * (0 * 1) + (1 * (1 * 1) + (0 * (0 * 1) + 0))) with 1 by ring.
    apply sqrt_1. }
  split.
  - apply (proj1 (@IsCollinear_self_and_reverse 0 1 0 (1 / 10) Hn)). lra.
  - apply (proj2 (@IsCollinear_self_and_reverse 0 1 0 (1 / 10) Hn)). lra.
Defined.

(** *** AzimuthAltitude *)

Lemma AzimuthAltitude_not_vertical (x y z : R) (mantissa : Z) :
  ~ (x = 0 /\ y = 0) ->
  AzimuthAltitude [x; y; z] mantissa
  = Ret (Some (azimuth_altitude_of x y z mantissa)).
Proof.
  intros H. unfold AzimuthAltitude.
  destruct (Req_dec_T x 0) as [Hx|Hx]; [|reflexivity].
  destruct (Req_dec_T y 0) as [Hy|Hy]; [|reflexivity].
  exfalso. apply H. split; assumption.
Qed.

Lemma horizontal_distance_pos (x y : R) :
  ~ (x = 0 /\ y = 0) -> 0 < sqrt (x ^ 2 + y ^ 2).
Proof.
  intros H. apply sqrt_lt_R0.
  destruct (Req_dec_T x 0) as [Hx|Hx].
  - destruct (Req_dec_T y 0) as [Hy|Hy]; [exfalso; apply H; split; assumption|].
    subst x. assert (0 < y ^ 2) by (simpl; nra). simpl in *. lra.
  - assert (0 < x ^ 2) by (simpl; nra). assert (0 <= y ^ 2) by (simpl; nra).
    lra.
Qed.

(** *** The named directions *)

Lemma atan2_pos_x (y x : R) : 0 < x -> atan2 y x = atan (y / x).
Proof. intros H. unfold atan2. destruct (Rlt_dec 0 x); [reflexivity|contradiction]. Qed.

Lemma atan2_north : atan2 1 0 = PI / 2.
Proof.
  unfold atan2. destruct (Rlt_dec 0 0); [lra|].
  destruct (Rlt_dec 0 1); [reflexivity|lra].
Qed.

Lemma atan2_south : atan2 (-1) 0 = - (PI / 2).
Proof.
  unfold atan2. destruct (Rlt_dec 0 0); [lra|].
  destruct (Rlt_dec 0 (-1)); [lra|].
  destruct (Rlt_dec (-1) 0); [reflexivity|lra].
Qed.

Lemma atan2_north_east : atan2 1 1 = PI / 4.
Proof.
  rewrite atan2_pos_x by lra. replace (1 / 1) with 1 by field. apply atan_1.
Qed.

Lemma atan2_south_east : atan2 (-1) 1 = - (PI / 4).
Proof.
  rewrite atan2_pos_x by lra. replace (-1 / 1) with (Ropp 1) by field.
  rewrite atan_opp, atan_1. reflexivity.
Qed.

Lemma atan2_south_west : atan2 (-1) (-1) = PI / 4 - PI.
Proof.
  unfold atan2. destruct (Rlt_dec 0 (-1)); [lra|].
  destruct (Rlt_dec (-1) 0); [|lra].
  destruct (Rle_dec 0 (-1)); [lra|].
  replace (-1 / -1) with 1 by field. rewrite atan_1. reflexivity.
Qed.

Lemma atan2_north_west_diagonal : atan2 1 (-1) = - (PI / 4) + PI.
Proof.
  unfold atan2. destruct (Rlt_dec 0 (-1)); [lra|].
  destruct (Rlt_dec (-1) 0); [|lra].
  destruct (Rle_dec 0 1); [|lra].
  replace (1 / -1) with (Ropp 1) by field. rewrite atan_opp, atan_1. reflexivity.
Qed.

Lemma degrees_fraction (p q : R) :
  q <> 0 -> degrees (p * PI / q) = p * 180 / q.
Proof. intros H. pose proof PI_neq0. unfold degrees. field. tauto. Qed.

(** The azimuth and altitude of a horizontal direction whose angle from the
    x axis is [p * PI / q]. *)
Lemma azimuth_of_horizontal (x y : R) (p q : R) (k : Z) (mantissa : Z) :
  ~ (x = 0 /\ y = 0) -> q <> 0 -> (0 <= mantissa)%Z ->
  atan2 y x = p * PI / q ->
  90 - (if Rlt_dec 90 (p * 180 / q) then p * 180 / q - 360 else p * 180 / q)
  = IZR k ->
  AzimuthAltitude [x; y; 0] mantissa = Ret (Some (mkAzAlt (IZR k) 0)).
Proof.
  intros Hxy Hq Hm Ha Hk.
  rewrite AzimuthAltitude_not_vertical by exact Hxy.
  unfold azimuth_altitude_of. cbn zeta.
  rewrite Ha, degrees_fraction by exact Hq.
  rewrite Hk, round_IZR by exact Hm.
  rewrite (atan2_0_pos (horizontal_distance_pos Hxy)), degrees_0, round_0.
  reflexivity.
Qed.

Ltac compass pp qq :=
  apply azimuth_of_horizontal with (p := pp) (q := qq);
  [ intros [? ?]; lra
  | lra
  | unfold default_mantissa; lia
  | first [ rewrite atan2_north | rewrite atan2_south
          | rewrite atan2_north_east | rewrite atan2_south_east
          | rewrite atan2_south_west | rewrite atan2_north_west_diagonal
          | rewrite atan2_0_pos by lra | rewrite atan2_0_neg by lra ]; field
  | match goal with
    | |- context [Rlt_dec ?a ?b] => destruct (Rlt_dec a b); lra
    end ].

(** X18.  [AzimuthAltitude] of the eight compass directions: north 0, north
    east 45, east 90, south east 135, south 180, south west 225, west 270
    and north west 315 degrees of azimuth, each with altitude 0; up and down
    have azimuth 0 and altitude 90 and -90. *)
Theorem AzimuthAltitude_compass :
  AzimuthAltitude North default_mantissa = Ret (Some (mkAzAlt 0 0)) /\
  AzimuthAltitude NorthEast default_mantissa = Ret (Some (mkAzAlt 45 0)) /\
  AzimuthAltitude East default_mantissa = Ret (Some (mkAzAlt 90 0)) /\
  AzimuthAltitude SouthEast default_mantissa = Ret (Some (mkAzAlt 135 0)) /\
  AzimuthAltitude South default_mantissa = Ret (Some (mkAzAlt 180 0)) /\
  AzimuthAltitude SouthWest default_mantissa = Ret (Some (mkAzAlt 225 0)) /\
  AzimuthAltitude West default_mantissa = Ret (Some (mkAzAlt 270 0)) /\
  AzimuthAltitude NorthWest default_mantissa = Ret (Some (mkAzAlt 315 0)) /\
  AzimuthAltitude Up default_mantissa = Ret (Some (mkAzAlt 0 90)) /\
  AzimuthAltitude Down default_mantissa = Ret (Some (mkAzAlt 0 (-90))).
Proof.
  unfold North, NorthEast, East, SouthEast, South, SouthWest, West, NorthWest.
  repeat split.
  - compass 1 2.
  - compass 1 4.
  - compass 0 1.
  - compass (-1) 4.
  - compass (-1) 2.
  - compass (-3) 4.
  - compass 1 1.
  - compass 3 4.
  - unfold Up, AzimuthAltitude.
    destruct (Req_dec_T 0 0); [|lra]. destruct (Rlt_dec 0 1); [reflexivity|lra].
  - unfold Down, AzimuthAltitude.
    destruct (Req_dec_T 0 0); [|lra]. destruct (Rlt_dec 0 (-1)); [lra|].
    destruct (Rlt_dec (-1) 0); [reflexivity|lra].
Qed.

(** [Reverse] maps every named direction to the opposite one: north
    to south, east to west, up to down, north east to south west and north
    west to south east, and back. *)
Theorem Reverse_opposites :
  Reverse (PyList North) = Some South /\
  Reverse (PyList South) = Some North /\
  Reverse (PyList East) = Some West /\
  Reverse (PyList West) = Some East /\
  Reverse (PyList Up) = Some Down /\
  Reverse (PyList Down) = Some Up /\
  Reverse (PyList NorthEast) = Some SouthWest /\
  Reverse (PyList SouthWest) = Some NorthEast /\
  Reverse (PyList NorthWest) = Some SouthEast /\
  Reverse (PyList SouthEast) = Some NorthWest.
Proof.
  unfold North, South, East, West, Up, Down, NorthEast, SouthWest, NorthWest,
    SouthEast.
  cbn [Reverse map].
  repeat split; repeat (f_equal; try ring).
Qed.

(** *** Cross *)

Lemma norm_opp3 (c0 c1 c2 : R) : norm [- c0; - c1; - c2] = norm [c0; c1; c2].
Proof. unfold norm. f_equal. simpl. ring. Qed.

(** X20.  [Cross] is antisymmetric on vectors of three components: with the
    two vectors exchanged it returns [None] where it returned [None], and
    otherwise the vector it returned with every component negated. *)
Theorem Cross_antisymmetric (a0 a1 a2 b0 b1 b2 : R) (mantissa : Z)
  (tolerance : R) :
  Cross (PyList [b0; b1; b2]) (PyList [a0; a1; a2]) mantissa tolerance
  = match Cross (PyList [a0; a1; a2]) (PyList [b0; b1; b2]) mantissa tolerance with
    | Returns (Some c) => Returns (Some (map Ropp c))
    | other => other
    end.
Proof.
  unfold Cross.
  destruct (Rlt_dec (Magnitude [a0; a1; a2] mantissa) tolerance);
    destruct (Rlt_dec (Magnitude [b0; b1; b2] mantissa) tolerance);
    try reflexivity.
  cbn [cross_list].
  replace (b1 * a2 - b2 * a1) with (- (a1 * b2 - a2 * b1)) by ring.
  replace (b2 * a0 - b0 * a2) with (- (a2 * b0 - a0 * b2)) by ring.
  replace (b0 * a1 - b1 * a0) with (- (a0 * b1 - a1 * b0)) by ring.
  set (c0 := a1 * b2 - a2 * b1). set (c1 := a2 * b0 - a0 * b2).
  set (c2 := a0 * b1 - a1 * b0).
  unfold Magnitude. rewrite (norm_opp3 c0 c1 c2).
  destruct (Rlt_dec _ tolerance); [reflexivity|].
  rewrite !round_opp. reflexivity.
Qed.

(** *** CompassAngle *)

Lemma index_first {A : Type} (x : A) (l : list A) : index (x :: l) 0 = Ret x.
Proof. reflexivity. Qed.

Lemma index_second {A : Type} (x y : A) (l : list A) :
  index (x :: y :: l) 1 = Ret y.
Proof. reflexivity. Qed.

Lemma index_third {A : Type} (x y z : A) (l : list A) :
  index (x :: y :: z :: l) 2 = Ret z.
Proof. reflexivity. Qed.

Lemma fmod_range (x m : R) : 0 < m -> 0 <= fmod x m < m.
Proof.
  intros Hm. unfold fmod.
  pose proof (Int_part_bounds (x / m)) as [Hlo Hhi].
  assert (E : x = x / m * m) by (field; lra).
  split; nra.
Qed.

Lemma fmod_0 (m : R) : fmod 0 m = 0.
Proof.
  unfold fmod. unfold Rdiv. rewrite Rmult_0_l, Int_part_IZR. ring.
Qed.

Lemma CompassAngle_value (ax ay : R) (ra : list R) (bx by0 : R) (rb : list R)
  (mantissa : Z) (tolerance : R) :
  ~ horizontal_small ax ay tolerance -> ~ horizontal_small bx by0 tolerance ->
  CompassAngle (ax :: ay :: ra) (bx :: by0 :: rb) mantissa tolerance
  = Ret (Some (round (rad2deg (fmod (atan2 ay ax - atan2 by0 bx) (2 * PI)))
                 mantissa)).
Proof.
  unfold horizontal_small. intros Ha Hb. unfold CompassAngle.
  rewrite !index_first, !index_second. cbn [bind].
  destruct (Rlt_dec (Rabs ax) tolerance) as [H1|H1]; cbn [bind].
  - destruct (Rlt_dec (Rabs ay) tolerance) as [H2|H2]; [tauto|].
    destruct (Rlt_dec (Rabs bx) tolerance) as [H3|H3]; cbn [bind].
    + destruct (Rlt_dec (Rabs by0) tolerance); [tauto|reflexivity].
    + reflexivity.
  - destruct (Rlt_dec (Rabs bx) tolerance) as [H3|H3]; cbn [bind].
    + destruct (Rlt_dec (Rabs by0) tolerance); [tauto|reflexivity].
    + reflexivity.
Qed.

(** X21.  For two vectors whose horizontal parts are not below the
    tolerance, and a mantissa that is not negative, [CompassAngle] returns
    an angle between 0 and 360; it returns 0 for a vector and itself. *)
Theorem CompassAngle_range (ax ay : R) (ra : list R) (bx by0 : R)
  (rb : list R) (mantissa : Z) (tolerance : R) :
  ~ horizontal_small ax ay tolerance -> ~ horizontal_small bx by0 tolerance ->
  (0 <= mantissa)%Z ->
  (exists r : R,
     CompassAngle (ax :: ay :: ra) (bx :: by0 :: rb) mantissa tolerance
     = Ret (Some r) /\ 0 <= r <= 360) /\
  CompassAngle (ax :: ay :: ra) (ax :: ay :: ra) mantissa tolerance
  = Ret (Some 0).
Proof.
  intros Ha Hb Hm. split.
  - eexists. split; [apply CompassAngle_value; assumption|].
    apply (@round_between _ 0 360 mantissa Hm).
    pose proof PI_gt_3 as Hpi.
    pose proof (@fmod_range (atan2 ay ax - atan2 by0 bx) (2 * PI)) as Hf.
    destruct Hf as [Hlo Hhi]; [lra|].
    set (t := fmod (atan2 ay ax - atan2 by0 bx) (2 * PI)) in *.
    assert (E : rad2deg t * PI = t * 180) by (unfold rad2deg; field; lra).
    split; nra.
  - rewrite CompassAngle_value by assumption.
    replace (atan2 ay ax - atan2 ay ax) with 0 by ring.
    rewrite fmod_0. unfold rad2deg. rewrite Rmult_0_l, round_0. reflexivity.
Qed.

Lemma CompassAngle_range_witness :
  (exists r : R,
     CompassAngle [0; 1; 0] [1; 0; 0] default_mantissa default_tolerance
     = Ret (Some r) /\ 0 <= r <= 360) /\
  CompassAngle [0; 1; 0] [0; 1; 0] default_mantissa default_tolerance
  = Ret (Some 0).
Proof.
  apply CompassAngle_range.
  - unfold horizontal_small, default_tolerance. intros [_ H].
    rewrite Rabs_R1 in H. lra.
  - unfold horizontal_small, default_tolerance. intros [H _].
    rewrite Rabs_R1 in H. lra.
  - unfold default_mantissa. lia.
Defined.

(** [CompassAngle] returns [None], without reading the second
    vector, when the horizontal part of the first is below the tolerance,
    and [None] as well when that of the second is. *)
Theorem CompassAngle_degenerate (ax ay : R) (ra vectorB : list R)
  (bx by0 : R) (rb : list R) (mantissa : Z) (tolerance : R) :
  (horizontal_small ax ay tolerance ->
   CompassAngle (ax :: ay :: ra) vectorB mantissa tolerance = Ret None) /\
  (horizontal_small bx by0 tolerance ->
   CompassAngle (ax :: ay :: ra) (bx :: by0 :: rb) mantissa tolerance
   = Ret None).
Proof.
  unfold horizontal_small, CompassAngle. split.
  - intros [H1 H2]. rewrite !index_first, !index_second. cbn [bind].
    destruct (Rlt_dec (Rabs ax) tolerance); [|contradiction]. cbn [bind].
    destruct (Rlt_dec (Rabs ay) tolerance); [reflexivity|contradiction].
  - intros [H1 H2]. rewrite !index_first, !index_second. cbn [bind].
    destruct (Rlt_dec (Rabs bx) tolerance); [|contradiction].
    destruct (Rlt_dec (Rabs by0) tolerance); [|contradiction].
    destruct (Rlt_dec (Rabs ax) tolerance); cbn [bind].
    + destruct (Rlt_dec (Rabs ay) tolerance); reflexivity.
    + reflexivity.
Qed.

Lemma CompassAngle_degenerate_witness :
  CompassAngle [0; 0; 1] [] default_mantissa default_tolerance = Ret None /\
  CompassAngle [1; 0; 0] [0; 0; 1] default_mantissa default_tolerance
  = Ret None.
Proof.
  assert (H : horizontal_small 0 0 default_tolerance).
  { unfold horizontal_small, default_tolerance. rewrite Rabs_R0. lra. }
  split.
  - apply (proj1 (@CompassAngle_degenerate 0 0 [1] [] 0 0 [] default_mantissa
                    default_tolerance)). exact H.
  - apply (proj2 (@CompassAngle_degenerate 1 0 [0] [] 0 0 [1] default_mantissa
                    default_tolerance)). exact H.
Defined.

(** *** Coordinates *)

(** X22.  [Coordinates] raises [IndexError] on a list of fewer than three
    components, whatever the output type, and reads only the first three
    components of a longer one. *)
Theorem Coordinates_components (outputType : String.string) (mantissa : Z) :
  (forall v : list R, (List.length v < 3)%nat ->
     Coordinates (PyList v) outputType mantissa = Raise IndexError) /\
  (forall (x y z : R) (rest : list R),
     Coordinates (PyList (x :: y :: z :: rest)) outputType mantissa
     = Coordinates (PyList [x; y; z]) outputType mantissa).
Proof.
  split.
  - intros [|x [|y [|z v]]] H; simpl in H; try lia; reflexivity.
  - intros x y z rest. unfold Coordinates.
    rewrite !index_first, !index_second, !index_third. reflexivity.
Qed.

(** Whatever the case of its letters, an output type that spells
    "matrix" makes [Coordinates] return the 4x4 matrix of the translation
    by the rounded components. *)
Theorem Coordinates_matrix (x y z : R) (outputType : String.string)
  (mantissa : Z) :
  lower outputType = "matrix"%string ->
  Coordinates (PyList [x; y; z]) outputType mantissa
  = Ret (Some (Matrix [[1; 0; 0; round x mantissa];
                       [0; 1; 0; round y mantissa];
                       [0; 0; 1; round z mantissa];
                       [0; 0; 0; 1]])).
Proof.
  intros H. unfold Coordinates.
  rewrite !index_first, !index_second, !index_third. cbn [bind].
  rewrite H. reflexivity.
Qed.

Lemma Coordinates_matrix_witness :
  Coordinates (PyList [1; 2; 3]) "MaTrIx" 0
  = Ret (Some (Matrix [[1; 0; 0; round 1 0];
                       [0; 1; 0; round 2 0];
                       [0; 0; 1; round 3 0];
                       [0; 0; 0; 1]])).
Proof.
  apply Coordinates_matrix. reflexivity.
Defined.

End Vector.

(** ** Vector.py on floating-point numbers

    [Multiply] and [AzimuthAltitude] with the operations of Python's
    [float] kept apart from the real numbers.  The functions are written
    over a type of floats and its operations, which are the variables of a
    section: the additions, the comparisons, [x ** 2] with its
    [OverflowError], the division with its [ZeroDivisionError], and the
    functions of [math].  What the theorems need of these operations is
    stated as hypotheses, each a property of IEEE 754 binary64 arithmetic
    rounding to nearest, of the C library or of Python's [round].  A
    component of a vector is a float; an [int] the caller passes is read as
    the float of the same value. *)

Module VectorFloat.
Import Py.

(** *** Two arithmetics to run the functions on *)

(** IEEE 754 binary64, the arithmetic of Python's [float], by the
    primitive floats of the kernel: [+], [-], [*], [/], [<] and [==] are
    the operations of [PrimFloat].  [x ** 2] is taken as the correctly
    rounded product and [x ** 0.5] as the correctly rounded square root. *)
Module Binary64.

(** The float of an [int] below [2 ^ 63] in absolute value. *)
Definition of_int (n : Z) : PrimFloat.float :=
  if (n <? 0)%Z then PrimFloat.opp (PrimFloat.of_uint63 (Uint63.of_Z (- n)))
  else PrimFloat.of_uint63 (Uint63.of_Z n).

Definition square (x : PrimFloat.float) : PrimFloat.float := PrimFloat.mul x x.

(** The square of a finite float is out of range when it rounds to [inf]. *)
Definition square_overflows (x : PrimFloat.float) : bool :=
  PrimFloat.is_finite x && PrimFloat.is_infinity (square x).

End Binary64.

(** The real numbers, the arithmetic of [Module Vector]: every operation is
    exact and there is no [nan]; a square is out of range above [fmax]. *)
Module Real.

Definition eqb (a b : R) : bool := if Req_dec_T a b then true else false.
Definition ltb (a b : R) : bool := if Rlt_dec a b then true else false.
Definition square (x : R) : R := (x * x)%R.
Definition square_overflows (fmax x : R) : bool := ltb fmax (square x).

(** The largest finite binary64 number, [(2 - 2^-52) * 2^1023]. *)
Definition fmax : R := IZR ((2 ^ 53 - 1) * 2 ^ 971).

End Real.

Section Arithmetic.

Variable float : Type.

(** The float of an [int] written in the source: [0], [90], [360]. *)
Variable of_int : Z -> float.

(** [a == b] and [a < b]: both are false when an operand is [nan]. *)
Variables feq flt : float -> float -> bool.

(** [a + b], [a - b] and [a * b] raise nothing: out of range they give
    [inf]. *)
Variables fadd fsub fmul : float -> float -> float.

(** [a / b] for a divisor that is not zero. *)
Variable fdiv : float -> float -> float.

(** [x ** 2]: whether the square of [x] is out of range, and the square
    when it is not. *)
Variable square_overflows : float -> bool.
Variable square : float -> float.

(** [x ** 0.5] and [math.sqrt(x)], for an [x] that is not negative. *)
Variable pow_half : float -> float.
Variable fsqrt : float -> float.

(** [math.atan2(y, x)], [math.degrees(x)] and [round(x, ndigits)]. *)
Variable atan2 : float -> float -> float.
Variable degrees : float -> float.
Variable round : float -> Z -> float.

(** *** Python's operations on floats *)

Definition zero : float := of_int 0.

(** [a > b] *)
Definition fgt (a b : float) : bool := flt b a.

(** [a <= b] *)
Definition fle (a b : float) : bool := flt a b || feq a b.

(** [math.isnan(x)]: [nan] is the one float that differs from itself. *)
Definition is_nan (x : float) : bool := negb (feq x x).

(** [value ** 2] raises [OverflowError] when the result is out of range. *)
Definition pow2 (value : float) : outcome float :=
  if square_overflows value then Raise OverflowError else Ret (square value).

(** [a / b] raises [ZeroDivisionError] when [b == 0]. *)
Definition truediv (a b : float) : outcome float :=
  if feq b zero then Raise ZeroDivisionError else Ret (fdiv a b).

(** [math.sqrt(x)] raises [ValueError] when [x < 0]. *)
Definition math_sqrt (x : float) : outcome float :=
  if flt x zero then Raise ValueError else Ret (fsqrt x).

(** *** The functions of the class *)

(** The loop [for value in vector: oldMag += value ** 2]. *)
Fixpoint accumulate_squares (vector : list float) (oldMag : float)
  : outcome float :=
  match vector with
  | [] => Ret oldMag
  | value :: vector' =>
      sq <- pow2 value ;;
      accumulate_squares vector' (fadd oldMag sq)
  end.

(** The loop [for i in range(len(vector)): newVector.append(...)]. *)
Fixpoint scale_components (vector : list float) (magnitude oldMag : float)
  (newVector : list float) : outcome (list float) :=
  match vector with
  | [] => Ret newVector
  | vi :: vector' =>
      c <- truediv (fmul vi magnitude) oldMag ;;
      scale_components vector' magnitude oldMag (newVector ++ [c])
  end.

(** [Vector.Multiply] *)
Definition Multiply (vector : list float) (magnitude tolerance : float)
  : outcome (list float) :=
  oldMag <- accumulate_squares vector zero ;;
  let oldMag := pow_half oldMag in
  if flt oldMag tolerance then Ret [zero; zero; zero]
  else scale_components vector magnitude oldMag [].

(** The dictionary [{"azimuth": ..., "altitude": ...}]. *)
Record AzAlt : Type := mkAzAlt {
  azimuth : float;
  altitude : float
}.

(** The [else] branch of [AzimuthAltitude]: [x] and [y] are not both zero. *)
Definition azimuth_altitude_of (x y z : float) (mantissa : Z)
  : outcome AzAlt :=
  let azimuth := degrees (atan2 y x) in
  let azimuth :=
    if fgt azimuth (of_int 90) then fsub azimuth (of_int 360) else azimuth in
  let azimuth := round (fsub (of_int 90) azimuth) mantissa in
  x2 <- pow2 x ;;
  y2 <- pow2 y ;;
  xy_distance <- math_sqrt (fadd x2 y2) ;;
  let altitude := degrees (atan2 z xy_distance) in
  let altitude := round altitude mantissa in
  Ret (mkAzAlt azimuth altitude).

(** [Vector.AzimuthAltitude]; [x, y, z = vector] raises [ValueError] unless
    the vector has three components. *)
Definition AzimuthAltitude (vector : list float) (mantissa : Z)
  : outcome (option AzAlt) :=
  match vector with
  | [x; y; z] =>
      if feq x zero && feq y zero then
        if fgt z zero then Ret (Some (mkAzAlt (of_int 0) (of_int 90)))
        else if flt z zero then Ret (Some (mkAzAlt (of_int 0) (of_int (-90))))
        else Ret None
      else
        r <- azimuth_altitude_of x y z mantissa ;;
        Ret (Some r)
  | _ => Raise ValueError
  end.

(** *** The notions of the specification *)

(** No square of a component is out of range. *)
Definition in_range (vector : list float) : Prop :=
  Forall (fun value => square_overflows value = false) vector.

(** The sum of the squares of the components, added in the order of the
    vector. *)
Definition sum_squares (vector : list float) : float :=
  fold_left (fun oldMag value => fadd oldMag (square value)) vector zero.

(** The Euclidean norm as [Multiply] computes it. *)
Definition norm (vector : list float) : float := pow_half (sum_squares vector).

(** The azimuth in degrees before it is brought into the compass range. *)
Definition bearing (x y : float) : float := degrees (atan2 y x).

(** The two-branch wrap of [AzimuthAltitude]: [90 - d], with [d] lowered by
    360 when it is above 90. *)
Definition wrap (d : float) : float :=
  fsub (of_int 90) (if fgt d (of_int 90) then fsub d (of_int 360) else d).

(** An [int] that every binary64 operation on it treats exactly. *)
Definition small (n : Z) : Prop := (Z.abs n <= 2 ^ 52)%Z.

(** *** Multiply *)

Lemma accumulate_squares_in_range (vector : list float) (oldMag : float) :
  in_range vector ->
  accumulate_squares vector oldMag
  = Ret (fold_left (fun oldMag value => fadd oldMag (square value))
           vector oldMag).
Proof.
  intros H. revert oldMag.
  induction H as [|value vector Hv _ IH]; intros oldMag; cbn.
  - reflexivity.
  - unfold pow2. rewrite Hv. cbn. apply IH.
Qed.

Lemma accumulate_squares_overflow (pre post : list float) (value oldMag : float) :
  in_range pre -> square_overflows value = true ->
  accumulate_squares (pre ++ value :: post) oldMag = Raise OverflowError.
Proof.
  intros H Hv. revert oldMag.
  induction H as [|v pre Hp _ IH]; intros oldMag; cbn.
  - unfold pow2. rewrite Hv. reflexivity.
  - unfold pow2. rewrite Hp. cbn. apply IH.
Qed.

Lemma accumulate_squares_cases (vector : list float) (oldMag : float) :
  in_range vector \/ accumulate_squares vector oldMag = Raise OverflowError.
Proof.
  revert oldMag. induction vector as [|value vector IH]; intros oldMag.
  - left. constructor.
  - cbn. unfold pow2. destruct (square_overflows value) eqn:Hv.
    + right. reflexivity.
    + cbn. destruct (IH (fadd oldMag (square value))) as [H|H].
      * left. constructor; assumption.
      * right. exact H.
Qed.

Lemma scale_components_nonzero (vector : list float)
  (magnitude oldMag : float) (newVector : list float) :
  feq oldMag zero = false ->
  scale_components vector magnitude oldMag newVector
  = Ret (newVector ++ map (fun vi => fdiv (fmul vi magnitude) oldMag) vector).
Proof.
  intros H. revert newVector.
  induction vector as [|vi vector IH]; intros newVector; cbn.
  - rewrite app_nil_r. reflexivity.
  - unfold truediv. rewrite H. cbn. rewrite IH, <- app_assoc. reflexivity.
Qed.

Lemma scale_components_zero (vi : float) (vector : list float)
  (magnitude oldMag : float) (newVector : list float) :
  feq oldMag zero = true ->
  scale_components (vi :: vector) magnitude oldMag newVector
  = Raise ZeroDivisionError.
Proof. intros H. cbn. unfold truediv. rewrite H. reflexivity. Qed.

(** A float that equals zero is below every float that zero is below:
    [0.0] and [-0.0] compare alike. *)
Hypothesis zero_below_positive : forall m t : float,
  feq m zero = true -> flt zero t = true -> flt m t = true.

(** C9, amended.  For a vector none of whose squares is out of range,
    [Multiply] compares the norm it computed with the tolerance: below it,
    the result is [[0, 0, 0]] and nothing is divided; otherwise every
    component is multiplied by the magnitude and divided by the norm, which
    raises [ZeroDivisionError] exactly when the norm is zero and the vector
    has a component.  The first component whose square is out of range
    raises [OverflowError], whatever the tolerance.  With a positive
    tolerance the division is guarded: [ZeroDivisionError] is not raised. *)
Theorem Multiply_guarded (vector : list float) (magnitude tolerance : float) :
  (in_range vector ->
   (flt (norm vector) tolerance = true ->
    Multiply vector magnitude tolerance = Ret [zero; zero; zero]) /\
   (flt (norm vector) tolerance = false ->
    feq (norm vector) zero = false ->
    Multiply vector magnitude tolerance
    = Ret (map (fun vi => fdiv (fmul vi magnitude) (norm vector)) vector)) /\
   (flt (norm vector) tolerance = false ->
    feq (norm vector) zero = true ->
    Multiply vector magnitude tolerance
    = match vector with
      | [] => Ret []
      | _ :: _ => Raise ZeroDivisionError
      end)) /\
  (forall (pre post : list float) (value : float),
     vector = pre ++ value :: post ->
     in_range pre -> square_overflows value = true ->
     Multiply vector magnitude tolerance = Raise OverflowError) /\
  (flt zero tolerance = true ->
   Multiply vector magnitude tolerance <> Raise ZeroDivisionError).
Proof.
  assert (Hin : in_range vector ->
          Multiply vector magnitude tolerance
          = if flt (norm vector) tolerance then Ret [zero; zero; zero]
            else scale_components vector magnitude (norm vector) []).
  { intros H. unfold Multiply.
    rewrite (accumulate_squares_in_range zero H). reflexivity. }
  split; [|split].
  - intros H. rewrite (Hin H). split; [|split].
    + intros Hlt. rewrite Hlt. reflexivity.
    + intros Hlt Hz. rewrite Hlt.
      apply (scale_components_nonzero vector magnitude [] Hz).
    + intros Hlt Hz. rewrite Hlt. destruct vector as [|vi vector].
      * reflexivity.
      * apply scale_components_zero. exact Hz.
  - intros pre post value -> Hpre Hv. unfold Multiply.
    rewrite (accumulate_squares_overflow post zero Hpre Hv). reflexivity.
  - intros Hpos.
    destruct (accumulate_squares_cases vector zero) as [H|H].
    + rewrite (Hin H). destruct (flt (norm vector) tolerance) eqn:Hlt.
      * discriminate.
      * destruct (feq (norm vector) zero) eqn:Hz.
        -- rewrite (zero_below_positive Hz Hpos) in Hlt. discriminate.
        -- rewrite (scale_components_nonzero vector magnitude [] Hz).
           discriminate.
    + unfold Multiply. rewrite H. discriminate.
Qed.

(** *** AzimuthAltitude *)

(** What the theorems on [AzimuthAltitude] use of the arithmetic. *)
Record arithmetic_laws : Prop := {
  (** A square is not negative, and neither is the sum of two floats that
      are not negative: [math.sqrt] is given nothing it refuses. *)
  square_not_negative : forall x : float, flt (square x) zero = false;
  add_not_negative : forall a b : float,
    flt a zero = false -> flt b zero = false -> flt (fadd a b) zero = false;
  (** [math.atan2] of two floats that are not [nan] lies between [-pi] and
      [pi], which [math.degrees] takes to [-180.0] and [180.0]. *)
  bearing_range : forall x y : float,
    is_nan x = false -> is_nan y = false ->
    fle (of_int (-180)) (bearing x y) = true /\
    fle (bearing x y) (of_int 180) = true;
  (** The floats that are not [nan] are ordered. *)
  fle_ordered : forall a b : float,
    fle a b = true -> is_nan a = false /\ is_nan b = false;
  fle_trans : forall a b c : float,
    fle a b = true -> fle b c = true -> fle a c = true;
  fle_total : forall a b : float,
    is_nan a = false -> is_nan b = false -> fgt a b = false ->
    fle a b = true;
  (** The conversion of small integers keeps their order, and their
      difference is computed exactly. *)
  of_int_le : forall a b : Z,
    small a -> small b -> (a <= b)%Z -> fle (of_int a) (of_int b) = true;
  fsub_of_int : forall a b : Z,
    small a -> small b -> fsub (of_int a) (of_int b) = of_int (a - b);
  (** Rounding to nearest keeps the order: a difference grows with its
      first operand and falls with its second. *)
  fsub_mono_l : forall (a b : float) (n : Z),
    small n -> fle a b = true ->
    fle (fsub a (of_int n)) (fsub b (of_int n)) = true;
  fsub_mono_r : forall (a b : float) (n : Z),
    small n -> fle a b = true ->
    fle (fsub (of_int n) b) (fsub (of_int n) a) = true;
  (** [round] to a number of digits that is not negative leaves a float
      between the integers it lies between. *)
  round_between : forall (a : float) (lo hi ndigits : Z),
    (0 <= ndigits)%Z -> small lo -> small hi ->
    fle (of_int lo) a = true -> fle a (of_int hi) = true ->
    fle (of_int lo) (round a ndigits) = true /\
    fle (round a ndigits) (of_int hi) = true
}.

Hypothesis laws : arithmetic_laws.

Lemma small_literal (n : Z) : (Z.abs n <= 1000)%Z -> small n.
Proof.
  unfold small. intros H. change (2 ^ 52)%Z with 4503599627370496%Z. lia.
Qed.

Lemma math_sqrt_squares (x y : float) :
  math_sqrt (fadd (square x) (square y))
  = Ret (fsqrt (fadd (square x) (square y))).
Proof.
  unfold math_sqrt.
  rewrite (@add_not_negative laws _ _
             (@square_not_negative laws x) (@square_not_negative laws y)).
  reflexivity.
Qed.

(** The wrap takes a bearing between -180 and 180 to a float between 0 and
    360: between 270 and 360 when 360 was subtracted. *)
Lemma wrap_range (d : float) :
  fle (of_int (-180)) d = true -> fle d (of_int 180) = true ->
  fle (of_int 0) (wrap d) = true /\ fle (wrap d) (of_int 360) = true.
Proof.
  intros Hlo Hhi. unfold wrap.
  assert (S : forall n : Z, (Z.abs n <= 1000)%Z -> small n)
    by exact small_literal.
  assert (Hd : is_nan d = false)
    by exact (proj2 (@fle_ordered laws _ _ Hlo)).
  destruct (fgt d (of_int 90)) eqn:Hgt.
  - assert (H90 : fle (of_int 90) d = true).
    { unfold fle. unfold fgt in Hgt. rewrite Hgt. reflexivity. }
    assert (Hw1 : fle (of_int (90 - 360)) (fsub d (of_int 360)) = true).
    { rewrite <- (fsub_of_int laws) by (apply S; lia).
      apply (fsub_mono_l laws); [apply S; lia|exact H90]. }
    assert (Hw2 : fle (fsub d (of_int 360)) (of_int (180 - 360)) = true).
    { rewrite <- (fsub_of_int laws) by (apply S; lia).
      apply (fsub_mono_l laws); [apply S; lia|exact Hhi]. }
    split.
    + apply (fle_trans laws) with (of_int (90 - (180 - 360))).
      * apply (of_int_le laws); [apply S; lia|apply S; lia|lia].
      * rewrite <- (fsub_of_int laws) by (apply S; lia).
        apply (fsub_mono_r laws); [apply S; lia|exact Hw2].
    + change 360%Z with (90 - (90 - 360))%Z at 2.
      rewrite <- (fsub_of_int laws) by (apply S; lia).
      apply (fsub_mono_r laws); [apply S; lia|exact Hw1].
  - assert (Hn90 : is_nan (of_int 90) = false).
    { apply (proj1 (@fle_ordered laws (of_int 90) (of_int 90)
                      (@of_int_le laws 90 90 (S 90%Z ltac:(lia))
                         (S 90%Z ltac:(lia)) ltac:(lia)))). }
    assert (H90 : fle d (of_int 90) = true)
      by (apply (fle_total laws); assumption).
    split.
    + change 0%Z with (90 - 90)%Z.
      rewrite <- (fsub_of_int laws) by (apply S; lia).
      apply (fsub_mono_r laws); [apply S; lia|exact H90].
    + apply (fle_trans laws) with (of_int (90 - -180)).
      * rewrite <- (fsub_of_int laws) by (apply S; lia).
        apply (fsub_mono_r laws); [apply S; lia|exact Hlo].
      * apply (of_int_le laws); [apply S; lia|apply S; lia|lia].
Qed.

(** C4, amended.  For a vector whose [x] and [y] are not both zero,
    [AzimuthAltitude] raises [OverflowError] when the square of [x] or of
    [y] is out of range.  Otherwise it returns as azimuth the rounding of
    [90 - d], where [d] is [atan2(y, x)] in degrees lowered by 360 when it
    is above 90, and as altitude the rounding of
    [atan2(z, sqrt(x ** 2 + y ** 2))] in degrees.  When [x] and [y] are not
    [nan] the azimuth before rounding lies between 0 and 360, both
    included, and so does the azimuth returned for a mantissa that is not
    negative. *)
Theorem AzimuthAltitude_general (x y z : float) (mantissa : Z) :
  feq x zero && feq y zero = false ->
  (square_overflows x = false -> square_overflows y = false ->
   AzimuthAltitude [x; y; z] mantissa
   = Ret (Some (mkAzAlt
                  (round (wrap (bearing x y)) mantissa)
                  (round (degrees (atan2 z (fsqrt (fadd (square x) (square y)))))
                     mantissa)))) /\
  (square_overflows x = true \/ square_overflows y = true ->
   AzimuthAltitude [x; y; z] mantissa = Raise OverflowError) /\
  (is_nan x = false -> is_nan y = false ->
   fle (of_int 0) (wrap (bearing x y)) = true /\
   fle (wrap (bearing x y)) (of_int 360) = true /\
   ((0 <= mantissa)%Z ->
    fle (of_int 0) (round (wrap (bearing x y)) mantissa) = true /\
    fle (round (wrap (bearing x y)) mantissa) (of_int 360) = true)).
Proof.
  intros Hxy. split; [|split].
  - intros Hx Hy. unfold AzimuthAltitude. rewrite Hxy.
    unfold azimuth_altitude_of, pow2. rewrite Hx, Hy. cbn [bind].
    rewrite math_sqrt_squares. reflexivity.
  - intros H. unfold AzimuthAltitude. rewrite Hxy.
    unfold azimuth_altitude_of, pow2.
    destruct (square_overflows x) eqn:Hx; [reflexivity|].
    destruct H as [H|H]; [discriminate|]. rewrite H. reflexivity.
  - intros Hx Hy.
    destruct (@bearing_range laws x y Hx Hy) as [Hlo Hhi].
    destruct (wrap_range _ Hlo Hhi) as [H0 H360].
    split; [exact H0|]. split; [exact H360|].
    intros Hm. apply (round_between laws); try assumption;
      apply small_literal; lia.
Qed.

End Arithmetic.

(** *** The functions on binary64 *)

Module OnBinary64.
Import PrimFloat.
#[local] Set Warnings "-inexact-float".

Definition Multiply_binary64
  : list PrimFloat.float -> PrimFloat.float -> PrimFloat.float
    -> outcome (list PrimFloat.float) :=
  Multiply Binary64.of_int PrimFloat.eqb PrimFloat.ltb PrimFloat.add
    PrimFloat.mul PrimFloat.div Binary64.square_overflows Binary64.square
    PrimFloat.sqrt.

Definition norm_binary64 : list PrimFloat.float -> PrimFloat.float :=
  norm Binary64.of_int PrimFloat.add Binary64.square PrimFloat.sqrt.

Lemma binary64_zero_below_positive (m t : PrimFloat.float) :
  PrimFloat.eqb m (Binary64.of_int 0) = true ->
  PrimFloat.ltb (Binary64.of_int 0) t = true ->
  PrimFloat.ltb m t = true.
Proof.
  change (Binary64.of_int 0) with (0%float).
  rewrite !FloatAxioms.ltb_spec, FloatAxioms.eqb_spec.
  change (FloatOps.Prim2SF (0%float)) with (SpecFloat.S754_zero false).
  destruct (FloatOps.Prim2SF m) as [s|s| |s e p];
    destruct (FloatOps.Prim2SF t) as [s'|s'| |s' e' p'];
    cbn; try discriminate; auto; destruct s; try discriminate; auto.
Qed.

Lemma Multiply_guarded_witness :
  Multiply_binary64 [0; 0; 0]%float 2%float 0.0001%float
  = Ret [0; 0; 0]%float /\
  Multiply_binary64 [3; 4; 0]%float 2%float 0.0001%float
  = Ret [1.2; 1.6; 0]%float /\
  Multiply_binary64 [0; 0; 0]%float 2%float (-1)%float
  = Raise ZeroDivisionError /\
  Multiply_binary64 [3; 1e200; 0]%float 2%float 0.0001%float
  = Raise OverflowError /\
  Multiply_binary64 [0; 0; 0]%float 2%float 0.0001%float
  <> Raise ZeroDivisionError.
Proof.
  pose proof (@Multiply_guarded PrimFloat.float Binary64.of_int PrimFloat.eqb
                PrimFloat.ltb PrimFloat.add PrimFloat.mul PrimFloat.div
                Binary64.square_overflows Binary64.square PrimFloat.sqrt
                binary64_zero_below_positive) as M.
  split; [|split; [|split; [|split]]].
  - apply (M [0; 0; 0]%float 2%float 0.0001%float).
    + repeat constructor.
    + reflexivity.
  - apply (proj1 (proj2 (proj1 (M [3; 4; 0]%float 2%float 0.0001%float)
                           ltac:(repeat constructor)))); reflexivity.
  - apply (proj2 (proj2 (proj1 (M [0; 0; 0]%float 2%float (-1)%float)
                           ltac:(repeat constructor)))); reflexivity.
  - apply (proj1 (proj2 (M [3; 1e200; 0]%float 2%float 0.0001%float))
             [3]%float [0]%float 1e200%float).
    + reflexivity.
    + repeat constructor.
    + reflexivity.
  - apply (proj2 (proj2 (M [0; 0; 0]%float 2%float 0.0001%float))).
    reflexivity.
Defined.

(** C9 as it is stated fails twice.  With the tolerance 0 the norm of the
    zero vector is not below the tolerance, and the division by it raises
    [ZeroDivisionError].  With the default tolerance the vector
    [[1e200, 0, 0]], whose norm is far above the tolerance, raises
    [OverflowError] in [value ** 2]. *)
Lemma Multiply_zero_tolerance :
  PrimFloat.ltb (norm_binary64 [0; 0; 0]%float) 0%float = false /\
  Multiply_binary64 [0; 0; 0]%float 5%float 0%float
  = Raise ZeroDivisionError /\
  Multiply_binary64 [1e200; 0; 0]%float 5%float 0.0001%float
  = Raise OverflowError.
Proof. split; [|split]; reflexivity. Qed.

End OnBinary64.

(** *** The functions on the real numbers *)

Definition AzimuthAltitude_real : list R -> Z -> outcome (option (AzAlt R)) :=
  AzimuthAltitude IZR Real.eqb Real.ltb Rplus Rminus
    (Real.square_overflows Real.fmax) Real.square sqrt
    Vector.atan2 Vector.degrees Vector.round.

(** The wrap and the bearing on the real numbers. *)
Definition wrap_real : R -> R := wrap IZR Real.ltb Rminus.
Definition bearing_real : R -> R -> R := bearing Vector.atan2 Vector.degrees.

Lemma real_ltb_true (a b : R) : Real.ltb a b = true <-> (a < b)%R.
Proof.
  unfold Real.ltb. destruct (Rlt_dec a b); split; intros H;
    try reflexivity; try assumption; try discriminate; contradiction.
Qed.

Lemma real_ltb_false (a b : R) : Real.ltb a b = false <-> (b <= a)%R.
Proof.
  unfold Real.ltb. destruct (Rlt_dec a b); split; intros H;
    try reflexivity; try discriminate; lra.
Qed.

Lemma real_eqb_true (a b : R) : Real.eqb a b = true <-> a = b.
Proof.
  unfold Real.eqb. destruct (Req_dec_T a b); split; intros H;
    try reflexivity; try assumption; try discriminate; contradiction.
Qed.

Lemma real_fle (a b : R) : fle Real.eqb Real.ltb a b = true <-> (a <= b)%R.
Proof.
  unfold fle. rewrite orb_true_iff, real_ltb_true, real_eqb_true.
  split; intros H; [destruct H; lra|].
  destruct (Rlt_dec a b); [left; assumption|right; lra].
Qed.

Lemma real_is_nan (a : R) : is_nan Real.eqb a = false.
Proof.
  unfold is_nan. rewrite (proj2 (real_eqb_true a a) eq_refl). reflexivity.
Qed.

Lemma real_laws :
  arithmetic_laws IZR Real.eqb Real.ltb Rplus Rminus Real.square
    Vector.atan2 Vector.degrees Vector.round.
Proof.
  constructor.
  - intros x. apply real_ltb_false. unfold zero, Real.square. nra.
  - intros a b Ha Hb. apply real_ltb_false.
    apply real_ltb_false in Ha, Hb. unfold zero in *. lra.
  - intros x y _ _. unfold bearing. rewrite !real_fle.
    pose proof (Vector.degrees_range (Vector.atan2_range y x)). lra.
  - intros a b _. split; apply real_is_nan.
  - intros a b c. rewrite !real_fle. lra.
  - intros a b _ _. unfold fgt. rewrite real_ltb_false, real_fle. lra.
  - intros a b _ _ H. apply real_fle. apply IZR_le. exact H.
  - intros a b _ _. symmetry. apply minus_IZR.
  - intros a b n _. rewrite !real_fle. lra.
  - intros a b n _. rewrite !real_fle. lra.
  - intros a lo hi ndigits Hm _ _. rewrite !real_fle. intros Hlo Hhi.
    apply Vector.round_between; [exact Hm|lra].
Qed.

Lemma fmax_large : (1000000000000000 <= Real.fmax)%R.
Proof. unfold Real.fmax. apply IZR_le. vm_compute. discriminate. Qed.

Lemma real_in_range (x : R) :
  (x * x <= 1000000000000000)%R ->
  Real.square_overflows Real.fmax x = false.
Proof.
  intros H. unfold Real.square_overflows, Real.square.
  apply real_ltb_false. pose proof fmax_large. lra.
Qed.

(** On the real numbers, and for squares in range, the function is the one
    of [Module Vector]. *)
Lemma AzimuthAltitude_real_exact (x y z : R) (mantissa : Z) :
  (x * x <= Real.fmax)%R -> (y * y <= Real.fmax)%R ->
  AzimuthAltitude_real [x; y; z] mantissa
  = match Vector.AzimuthAltitude [x; y; z] mantissa with
    | Ret r =>
        Ret (option_map
               (fun a => mkAzAlt (Vector.azimuth a) (Vector.altitude a)) r)
    | Raise e => Raise e
    | OutOfFuel => OutOfFuel
    end.
Proof.
  intros Hx Hy.
  assert (Hof : azimuth_altitude_of IZR Real.ltb Rplus Rminus
                  (Real.square_overflows Real.fmax) Real.square sqrt
                  Vector.atan2 Vector.degrees Vector.round x y z mantissa
                = Ret (mkAzAlt
                         (Vector.azimuth
                            (Vector.azimuth_altitude_of x y z mantissa))
                         (Vector.altitude
                            (Vector.azimuth_altitude_of x y z mantissa)))).
  { unfold azimuth_altitude_of, pow2, Real.square_overflows.
    rewrite !(proj2 (real_ltb_false _ _)) by assumption.
    cbn [bind]. unfold math_sqrt. change (zero IZR) with 0%R.
    rewrite (proj2 (real_ltb_false _ 0)) by (unfold Real.square; nra).
    cbn [bind]. unfold Vector.azimuth_altitude_of, fgt, Real.ltb, Real.square.
    cbn [Vector.azimuth Vector.altitude].
    replace (x ^ 2 + y ^ 2)%R with (x * x + y * y)%R by ring.
    destruct (Rlt_dec 90 (Vector.degrees (Vector.atan2 y x))); reflexivity. }
  unfold AzimuthAltitude_real, AzimuthAltitude, Vector.AzimuthAltitude.
  fold (azimuth_altitude_of IZR Real.ltb Rplus Rminus
          (Real.square_overflows Real.fmax) Real.square sqrt
          Vector.atan2 Vector.degrees Vector.round x y z mantissa).
  rewrite Hof. change (zero IZR) with 0%R. unfold Real.eqb, fgt, Real.ltb.
  destruct (Req_dec_T x 0); cbn [andb bind option_map];
    [|reflexivity].
  destruct (Req_dec_T y 0); cbn [andb bind option_map];
    [|reflexivity].
  destruct (Rlt_dec 0 z); [reflexivity|].
  destruct (Rlt_dec z 0); reflexivity.
Qed.

Lemma AzimuthAltitude_general_witness :
  AzimuthAltitude_real [0; 1; 0]%R 4
  = Ret (Some (mkAzAlt
                 (Vector.round (wrap_real (bearing_real 0 1)) 4)
                 (Vector.round
                    (Vector.degrees
                       (Vector.atan2 0
                          (sqrt (Real.square 0 + Real.square 1)))) 4))) /\
  AzimuthAltitude_real [IZR (10 ^ 200); 1; 0]%R 4 = Raise OverflowError /\
  (0 <= wrap_real (bearing_real 0 1) <= 360)%R /\
  (0 <= Vector.round (wrap_real (bearing_real 0 1)) 4 <= 360)%R.
Proof.
  assert (N : forall x : R, x <> 0%R ->
            Real.eqb x (zero IZR) && Real.eqb 1 (zero IZR) = false).
  { intros x Hx. apply andb_false_iff. right.
    unfold Real.eqb, zero. destruct (Req_dec_T 1 0); [lra|reflexivity]. }
  assert (N0 : Real.eqb 0 (zero IZR) && Real.eqb 1 (zero IZR) = false).
  { apply andb_false_iff. right.
    unfold Real.eqb, zero. destruct (Req_dec_T 1 0); [lra|reflexivity]. }
  pose proof (@AzimuthAltitude_general R IZR Real.eqb Real.ltb Rplus Rminus
                (Real.square_overflows Real.fmax) Real.square sqrt
                Vector.atan2 Vector.degrees Vector.round real_laws) as A.
  destruct (A 0%R 1%R 0%R 4%Z N0) as [A1 [_ A3]].
  destruct (A3 (real_is_nan 0) (real_is_nan 1)) as [B1 [B2 B3]].
  destruct (B3 ltac:(lia)) as [B4 B5].
  apply real_fle in B1, B2, B4, B5.
  split; [|split; [|split]].
  - apply A1; apply real_in_range; lra.
  - apply (proj1 (proj2 (A (IZR (10 ^ 200)) 1%R 0%R 4%Z
                           (N (IZR (10 ^ 200)) ltac:(apply not_0_IZR; lia))))).
    left. unfold Real.square_overflows, Real.square, Real.fmax.
    apply real_ltb_true. rewrite <- mult_IZR. apply IZR_lt.
    vm_compute. reflexivity.
  - split; assumption.
  - split; assumption.
Defined.

(** C4 as it is stated fails for a direction a hair west of north: the
    azimuth before rounding is just below 360, and the rounding to four
    digits returns 360. *)
Lemma AzimuthAltitude_reaches_360 :
  Real.eqb (-1) 0 && Real.eqb 10000000 0 = false /\
  AzimuthAltitude_real [-1; 10000000; 0]%R 4 = Ret (Some (mkAzAlt 360 0))%R.
Proof.
  assert (E : Real.eqb (-1) 0 && Real.eqb 10000000 0 = false).
  { unfold Real.eqb. destruct (Req_dec_T (-1) 0); [lra|reflexivity]. }
  split; [exact E|].
  unfold AzimuthAltitude_real, AzimuthAltitude.
  change (zero IZR) with 0%R. rewrite E.
  unfold azimuth_altitude_of, pow2.
  rewrite (@real_in_range (-1)) by lra.
  rewrite (@real_in_range 10000000) by lra.
  cbn [bind]. unfold math_sqrt. change (zero IZR) with 0%R.
  rewrite (proj2 (real_ltb_false _ 0))
    by (unfold Real.square; lra).
  cbn [bind].
  assert (Hs : (0 < sqrt (Real.square (-1) + Real.square 10000000))%R).
  { apply sqrt_lt_R0. unfold Real.square. lra. }
  rewrite (Vector.atan2_0_pos Hs), Vector.degrees_0, Vector.round_0.
  rewrite Vector.atan2_north_west by lra.
  set (t := atan (- -1 / 10000000)).
  assert (Ht : (0 < t <= / 10000000)%R).
  { unfold t. replace (- -1 / 10000000)%R with (/ 10000000)%R by field.
    split.
    - rewrite <- atan_0. apply atan_increasing. lra.
    - apply Vector.atan_le_x. lra. }
  pose proof Vector.PI_gt_3 as Hpi.
  set (d := (t * (180 / PI))%R).
  assert (Hdeg : Vector.degrees (PI / 2 + t) = (90 + d)%R).
  { unfold Vector.degrees, d. field. lra. }
  assert (Hd : (0 < d < 1 / 100000)%R).
  { unfold d. assert (0 < 180 / PI < 60)%R.
    { split; [apply Rdiv_lt_0_compat; lra|].
      apply Rmult_lt_reg_r with PI; [lra|].
      unfold Rdiv. rewrite Rmult_assoc, Rinv_l; lra. }
    nra. }
  rewrite Hdeg. unfold fgt.
  rewrite (proj2 (real_ltb_true 90 (90 + d))) by lra.
  do 3 f_equal.
  unfold Vector.round.
  rewrite (@Vector.round_half_even_just_below _ 3600000).
  - simpl. field.
  - simpl. lra.
Qed.


End VectorFloat.

(** ** Plotly.py: the face buffer of [DataByTopology] *)

Module Plotly.
Import QArith Lqa.
Import Py.
#[local] Open Scope Q_scope.

(** A kernel instance for examples: points with rational coordinates, two
    of them near each other when their distance is at most the tolerance. *)
Definition point : Type := Q * Q * Q.

Definition distance2 (p q : point) : Q :=
  let '(px, py, pz) := p in
  let '(qx, qy, qz) := q in
  (px - qx) * (px - qx) + (py - qy) * (py - qy) + (pz - qz) * (pz - qz).

Definition near_point (tolerance : Q) (p q : point) : bool :=
  Qle_bool 0 tolerance && Qle_bool (distance2 p q) (tolerance * tolerance).

Section MeshExtraction.

(** A vertex of the geometry kernel, and the kernel's test that two
    vertices coincide within a tolerance. *)
Variable vertex : Type.
Variable near : Q -> vertex -> vertex -> bool.

(** The scan of [Vertex.Index], counting positions from [i]. *)
Fixpoint index_from (tolerance : Q) (v : vertex) (vertices : list vertex)
  (i : nat) : option nat :=
  match vertices with
  | [] => None
  | u :: vertices' =>
      if near tolerance v u then Some i
      else index_from tolerance v vertices' (S i)
  end.

(** Modelled from the spec: [Vertex.Index] is not among the sources.  The
    specification has it resolve a vertex to its position in the original
    vertex array by coordinate match within the tolerance, the first
    positional match winning, with no result when nothing matches. *)
Definition Vertex_Index (vertex0 : vertex) (vertices : list vertex)
  (tolerance : Q) : option nat :=
  index_from tolerance vertex0 vertices 0.

(** The loop [while i == None and tolerance < 3] of [DataByTopology]; one
    unit of fuel per evaluation of its condition.  It returns the final
    [i] and the final [tolerance]. *)
Fixpoint lookup_loop (fuel : nat) (w_v : vertex) (tp_verts : list vertex)
  (i : option nat) (tolerance : Q) : outcome (option nat * Q) :=
  match fuel with
  | O => OutOfFuel
  | S fuel' =>
      match i with
      | None =>
          if Qlt_le_dec tolerance 3 then
            let i := Vertex_Index w_v tp_verts tolerance in
            let tolerance := tolerance * 10 in
            lookup_loop fuel' w_v tp_verts i tolerance
          else Ret (i, tolerance)
      | Some _ => Ret (i, tolerance)
      end
  end.

(** The loop [for w_v in w_vertices], which resets the tolerance for every
    corner and appends the index of a corner that was found. *)
Fixpoint corners_loop (fuel : nat) (w_vertices tp_verts : list vertex)
  (orig_tolerance : Q) (temp_f : list nat) : outcome (list nat) :=
  match w_vertices with
  | [] => Ret temp_f
  | w_v :: w_vertices' =>
      r <- lookup_loop fuel w_v tp_verts None orig_tolerance ;;
      let temp_f :=
        match fst r with
        | Some i => temp_f ++ [i]
        | None => temp_f
        end in
      corners_loop fuel w_vertices' tp_verts orig_tolerance temp_f
  end.

(** The loop [for tri in triangles]; a triangle is given by the vertices
    of its external boundary. *)
Fixpoint triangles_loop (fuel : nat) (triangles : list (list vertex))
  (tp_verts : list vertex) (orig_tolerance : Q) (faces : list (list nat))
  : outcome (list (list nat)) :=
  match triangles with
  | [] => Ret faces
  | tri :: triangles' =>
      temp_f <- corners_loop fuel tri tp_verts orig_tolerance [] ;;
      let faces :=
        if (2 <? List.length temp_f)%nat then faces ++ [temp_f] else faces in
      triangles_loop fuel triangles' tp_verts orig_tolerance faces
  end.

(** The index arrays of [faceData]: the loop
    [for f in faces: i.append(f[0]); j.append(f[1]); k.append(f[2])], which
    the function runs whether or not labels and groups are asked for. *)
Fixpoint face_index_arrays (faces : list (list nat)) (i j k : list nat)
  : outcome (list nat * list nat * list nat) :=
  match faces with
  | [] => Ret (i, j, k)
  | f :: faces' =>
      f0 <- index f 0 ;;
      f1 <- index f 1 ;;
      f2 <- index f 2 ;;
      face_index_arrays faces' (i ++ [f0]) (j ++ [f1]) (k ++ [f2])
  end.

(** *** The notions of the specification *)

(** The tolerance after [k] multiplications by ten. *)
Fixpoint escalate (tolerance : Q) (k : nat) : Q :=
  match k with
  | O => tolerance
  | S k' => escalate tolerance k' * 10
  end.

(** Corner [w_v] resolves to [i]: a lookup at one of the escalated
    tolerances below the cap finds it at position [i]. *)
Definition resolves (tp_verts : list vertex) (tolerance : Q) (w_v : vertex)
  (i : nat) : Prop :=
  exists j : nat,
    escalate tolerance j < 3 /\
    Vertex_Index w_v tp_verts (escalate tolerance j) = Some i.

(** Corner [w_v] fails to resolve within the cap. *)
Definition unresolved (tp_verts : list vertex) (tolerance : Q) (w_v : vertex)
  : Prop :=
  forall j : nat,
    escalate tolerance j < 3 ->
    Vertex_Index w_v tp_verts (escalate tolerance j) = None.



(** The result of the last of [k] lookups. *)
Definition last_lookup (w_v : vertex) (tp_verts : list vertex)
  (tolerance : Q) (k : nat) : option nat :=
  match k with
  | O => None
  | S k' => Vertex_Index w_v tp_verts (escalate tolerance k')
  end.

(** What a run of [k] lookups looked like: each was made below the cap,
    all but the last failed, and if the last failed too the tolerance has
    reached the cap. *)
Definition run_of (w_v : vertex) (tp_verts : list vertex) (tolerance : Q)
  (k : nat) : Prop :=
  (forall j : nat, (j < k)%nat -> escalate tolerance j < 3) /\
  (forall j : nat, (S j < k)%nat ->
     Vertex_Index w_v tp_verts (escalate tolerance j) = None) /\
  (last_lookup w_v tp_verts tolerance k = None -> 3 <= escalate tolerance k).

(** An index into the vertex array. *)
Definition valid_index (tp_verts : list vertex) (i : nat) : Prop :=
  (i < List.length tp_verts)%nat.

(** What the corners of one triangle gave: either every corner resolved,
    or one did not and the list of indices is shorter than the triangle. *)
Definition corners_of (tp_verts : list vertex) (tolerance : Q)
  (tri : list vertex) (temp_f : list nat) : Prop :=
  Forall (valid_index tp_verts) temp_f /\
  (Forall2 (resolves tp_verts tolerance) tri temp_f \/
   (Exists (unresolved tp_verts tolerance) tri /\
    (List.length temp_f < List.length tri)%nat)).

(** *** Lemmas on the lookup *)

Lemma index_from_bound (tolerance : Q) (v : vertex) (vertices : list vertex)
  (i n : nat) :
  index_from tolerance v vertices i = Some n ->
  (i <= n < i + List.length vertices)%nat.
Proof.
  revert i. induction vertices as [|u vertices IH]; intros i H; simpl in H.
  - discriminate.
  - destruct (near tolerance v u).
    + injection H as <-. simpl. lia.
    + apply IH in H. simpl. lia.
Qed.

Lemma Vertex_Index_valid (v : vertex) (vertices : list vertex)
  (tolerance : Q) (n : nat) :
  Vertex_Index v vertices tolerance = Some n -> (n < List.length vertices)%nat.
Proof.
  unfold Vertex_Index. intros H. apply index_from_bound in H. lia.
Qed.

Lemma escalate_shift (tolerance : Q) (k : nat) :
  escalate (tolerance * 10) k = escalate tolerance (S k).
Proof.
  induction k as [|k IH]; [reflexivity|].
  simpl. rewrite IH. reflexivity.
Qed.

Lemma escalate_pos (tolerance : Q) (k : nat) :
  0 < tolerance -> 0 < escalate tolerance k.
Proof.
  intros H. induction k as [|k IH]; cbn [escalate]; [exact H|]. lra.
Qed.

Lemma escalate_mono (tolerance : Q) (j k : nat) :
  0 < tolerance -> (j <= k)%nat -> escalate tolerance j <= escalate tolerance k.
Proof.
  intros H. induction 1 as [|k _ IH]; [apply Qle_refl|].
  cbn [escalate]. pose proof (escalate_pos k H). lra.
Qed.



Lemma run_of_shift (w_v : vertex) (tp_verts : list vertex) (tolerance : Q)
  (k : nat) :
  tolerance < 3 ->
  Vertex_Index w_v tp_verts tolerance = None ->
  run_of w_v tp_verts (tolerance * 10) k ->
  run_of w_v tp_verts tolerance (S k) /\
  last_lookup w_v tp_verts tolerance (S k)
  = last_lookup w_v tp_verts (tolerance * 10) k.
Proof.
  intros Hlt Hnone (H1 & H2 & H3).
  assert (Hlast : last_lookup w_v tp_verts tolerance (S k)
                  = last_lookup w_v tp_verts (tolerance * 10) k).
  { destruct k as [|k]; cbn [last_lookup escalate].
    - exact Hnone.
    - rewrite escalate_shift. reflexivity. }
  split; [|exact Hlast]. repeat split.
  - intros [|j] Hj; [exact Hlt|].
    rewrite <- escalate_shift. apply H1. lia.
  - intros [|j] Hj; [exact Hnone|].
    rewrite <- escalate_shift. apply H2. lia.
  - rewrite Hlast, <- escalate_shift. exact H3.
Qed.


(** Whatever the tolerance, a run that returns is a run of some number of
    lookups. *)
Lemma lookup_sound (w_v : vertex) (tp_verts : list vertex) (fuel : nat) :
  forall (tolerance : Q) (r : option nat * Q),
    lookup_loop fuel w_v tp_verts None tolerance = Ret r ->
    exists k : nat,
      r = (last_lookup w_v tp_verts tolerance k, escalate tolerance k) /\
      run_of w_v tp_verts tolerance k.
Proof.
  induction fuel as [|fuel IH]; intros tolerance r H; [discriminate|].
  cbn [lookup_loop] in H.
  destruct (Qlt_le_dec tolerance 3) as [Hlt|Hge].
  - destruct (Vertex_Index w_v tp_verts tolerance) as [n|] eqn:Hvi.
    + destruct fuel as [|fuel]; [discriminate|].
      cbn [lookup_loop] in H. injection H as <-.
      exists 1%nat. cbn [last_lookup escalate]. rewrite Hvi.
      split; [reflexivity|]. repeat split.
      * intros j Hj. assert (j = 0)%nat as -> by lia. exact Hlt.
      * intros j Hj. lia.
      * cbn [last_lookup escalate]. rewrite Hvi. discriminate.
    + destruct (IH _ _ H) as (k & -> & Hprop).
      destruct (run_of_shift Hlt Hvi Hprop) as [Hprop' Hlast].
      exists (S k). rewrite Hlast, escalate_shift.
      split; [reflexivity|exact Hprop'].
  - injection H as <-. exists 0%nat. split; [reflexivity|].
    repeat split; intros; try lia. exact Hge.
Qed.

(** A run that ends with an index found it in a lookup below the cap, at a
    position of the vertex array; a run that ends without one has seen
    every lookup below the cap fail. *)
Lemma run_of_result (w_v : vertex) (tp_verts : list vertex) (tolerance : Q)
  (k : nat) :
  run_of w_v tp_verts tolerance k ->
  match last_lookup w_v tp_verts tolerance k with
  | Some i => resolves tp_verts tolerance w_v i /\ (i < List.length tp_verts)%nat
  | None => unresolved tp_verts tolerance w_v
  end.
Proof.
  intros (H1 & H2 & H3).
  destruct (last_lookup w_v tp_verts tolerance k) as [i|] eqn:Hl.
  - destruct k as [|k]; [discriminate|]. cbn [last_lookup] in Hl. split.
    + exists k. split; [apply H1; lia|exact Hl].
    + apply (Vertex_Index_valid _ _ _ Hl).
  - specialize (H3 eq_refl). intros j Hj.
    destruct (Nat.lt_ge_cases j k) as [Hjk|Hjk].
    + destruct (Nat.eq_dec (S j) k) as [<-|Hne].
      * exact Hl.
      * apply H2. lia.
    + exfalso.
      assert (Hmono : forall d : nat, 3 <= escalate tolerance (d + k)).
      { induction d as [|d IHd]; [exact H3|].
        cbn [Nat.add escalate]. lra. }
      specialize (Hmono (j - k)%nat).
      replace (j - k + k)%nat with j in Hmono by lia. lra.
Qed.

Lemma corners_of_cons_found (tp_verts : list vertex) (tolerance : Q)
  (w_v : vertex) (i : nat) (tri : list vertex) (temp_f : list nat) :
  resolves tp_verts tolerance w_v i -> valid_index tp_verts i ->
  corners_of tp_verts tolerance tri temp_f ->
  corners_of tp_verts tolerance (w_v :: tri) (i :: temp_f).
Proof.
  intros Hr Hv [Hvalid [Hall | [Hex Hlen]]]; split.
  - constructor; assumption.
  - left. constructor; assumption.
  - constructor; assumption.
  - right. split; [apply Exists_cons_tl; exact Hex|simpl; lia].
Qed.

Lemma corners_of_cons_missed (tp_verts : list vertex) (tolerance : Q)
  (w_v : vertex) (tri : list vertex) (temp_f : list nat) :
  unresolved tp_verts tolerance w_v ->
  corners_of tp_verts tolerance tri temp_f ->
  corners_of tp_verts tolerance (w_v :: tri) temp_f.
Proof.
  intros Hu [Hvalid Hcase]. split; [exact Hvalid|].
  right. split; [apply Exists_cons_hd; exact Hu|].
  destruct Hcase as [Hall | [_ Hlen]].
  - apply Forall2_length in Hall. simpl. lia.
  - simpl. lia.
Qed.

Lemma corners_sound (fuel : nat) (tp_verts : list vertex) (tolerance : Q)
  (tri : list vertex) :
  forall acc t : list nat,
    corners_loop fuel tri tp_verts tolerance acc = Ret t ->
    exists temp_f : list nat,
      t = acc ++ temp_f /\ corners_of tp_verts tolerance tri temp_f.
Proof.
  induction tri as [|w_v tri IH]; intros acc t H.
  - cbn [corners_loop] in H. injection H as <-. exists [].
    split; [symmetry; apply app_nil_r|].
    split; [constructor|left; constructor].
  - cbn [corners_loop] in H.
    destruct (lookup_loop fuel w_v tp_verts None tolerance) as [r| |] eqn:Hl;
      try discriminate.
    cbn [bind] in H.
    destruct (lookup_sound _ _ _ _ Hl) as (k & -> & Hrun).
    pose proof (run_of_result Hrun) as Hres. cbn [fst] in H.
    destruct (last_lookup w_v tp_verts tolerance k) as [i|].
    + destruct (IH _ _ H) as (temp_f & -> & Hc). exists (i :: temp_f).
      split; [rewrite <- app_assoc; reflexivity|].
      destruct Hres as [Hr Hv]. apply corners_of_cons_found; assumption.
    + destruct (IH _ _ H) as (temp_f & -> & Hc). exists temp_f.
      split; [reflexivity|]. apply corners_of_cons_missed; assumption.
Qed.






(** *** Further properties of the face loop *)

Lemma lookup_loop_at_cap (fuel : nat) (w_v : vertex) (tp_verts : list vertex)
  (tolerance : Q) :
  3 <= tolerance ->
  lookup_loop (S fuel) w_v tp_verts None tolerance = Ret (None, tolerance).
Proof.
  intros H. cbn [lookup_loop].
  destruct (Qlt_le_dec tolerance 3); [lra|reflexivity].
Qed.

Lemma corners_loop_at_cap (fuel : nat) (tp_verts : list vertex)
  (tolerance : Q) (tri : list vertex) (acc : list nat) :
  3 <= tolerance ->
  corners_loop (S fuel) tri tp_verts tolerance acc = Ret acc.
Proof.
  intros H. revert acc. induction tri as [|w_v tri IH]; intros acc.
  - reflexivity.
  - cbn [corners_loop]. rewrite lookup_loop_at_cap by exact H.
    cbn [bind fst]. apply IH.
Qed.

Lemma triangles_loop_at_cap (fuel : nat) (tp_verts : list vertex)
  (tolerance : Q) (triangles : list (list vertex)) (acc : list (list nat)) :
  3 <= tolerance ->
  triangles_loop (S fuel) triangles tp_verts tolerance acc = Ret acc.
Proof.
  intros H. revert acc. induction triangles as [|tri triangles IH]; intros acc.
  - reflexivity.
  - cbn [triangles_loop]. rewrite corners_loop_at_cap by exact H.
    cbn [bind List.length Nat.ltb Nat.leb]. apply IH.
Qed.

(** X23.  With a tolerance of 3 or more the loop condition fails before the
    first lookup: no vertex is looked up, no corner resolves, and the face
    buffer is empty whatever the triangles and the vertices. *)
Theorem no_faces_at_cap (fuel : nat) (triangles : list (list vertex))
  (tp_verts : list vertex) (tolerance : Q) :
  3 <= tolerance ->
  (forall w_v : vertex,
     lookup_loop (S fuel) w_v tp_verts None tolerance = Ret (None, tolerance)) /\
  triangles_loop (S fuel) triangles tp_verts tolerance [] = Ret [].
Proof.
  intros H. split.
  - intros w_v. apply lookup_loop_at_cap. exact H.
  - apply triangles_loop_at_cap. exact H.
Qed.


Lemma triangles_guard (fuel : nat) (tp_verts : list vertex) (tolerance : Q)
  (triangles : list (list vertex)) :
  forall acc faces : list (list nat),
    triangles_loop fuel triangles tp_verts tolerance acc = Ret faces ->
    exists new : list (list nat),
      faces = acc ++ new /\
      (List.length new <= List.length triangles)%nat /\
      Forall (fun f => (2 < List.length f)%nat /\
                       Forall (valid_index tp_verts) f) new.
Proof.
  induction triangles as [|tri triangles IH]; intros acc faces H.
  - cbn [triangles_loop] in H. injection H as <-. exists [].
    split; [symmetry; apply app_nil_r|]. split; [simpl; lia|constructor].
  - cbn [triangles_loop] in H.
    destruct (corners_loop fuel tri tp_verts tolerance []) as [t| |] eqn:Hc;
      try discriminate.
    cbn [bind] in H.
    destruct (corners_sound _ _ _ _ _ Hc) as (temp_f & -> & Hvalid & _).
    cbn [app] in H.
    destruct (2 <? List.length temp_f)%nat eqn:E.
    + destruct (IH _ _ H) as (new & -> & Hlen & Hall).
      exists (temp_f :: new). split; [rewrite <- app_assoc; reflexivity|].
      split; [simpl; lia|].
      constructor; [|exact Hall]. split; [apply Nat.ltb_lt; exact E|exact Hvalid].
    + destruct (IH _ _ H) as (new & -> & Hlen & Hall).
      exists new. split; [reflexivity|]. split; [simpl; lia|exact Hall].
Qed.

Lemma face_index_arrays_ok (tp_verts : list vertex) (faces : list (list nat)) :
  Forall (fun f => (2 < List.length f)%nat /\ Forall (valid_index tp_verts) f)
    faces ->
  forall i j k : list nat,
    exists i' j' k' : list nat,
      face_index_arrays faces i j k = Ret (i ++ i', j ++ j', k ++ k') /\
      List.length i' = List.length faces /\
      List.length j' = List.length faces /\
      List.length k' = List.length faces /\
      Forall (valid_index tp_verts) (i' ++ j' ++ k').
Proof.
  induction 1 as [|f faces [Hlen Hvalid] _ IH]; intros i j k.
  - exists [], [], []. rewrite !app_nil_r. repeat split. constructor.
  - destruct f as [|f0 [|f1 [|f2 f]]]; simpl in Hlen; try lia.
    cbn [face_index_arrays].
    change (index (f0 :: f1 :: f2 :: f) 0) with (Ret f0).
    change (index (f0 :: f1 :: f2 :: f) 1) with (Ret f1).
    change (index (f0 :: f1 :: f2 :: f) 2) with (Ret f2).
    cbn [bind].
    destruct (IH (i ++ [f0]) (j ++ [f1]) (k ++ [f2]))
      as (i' & j' & k' & -> & Hi & Hj & Hk & Hall).
    exists (f0 :: i'), (f1 :: j'), (f2 :: k').
    rewrite <- !app_assoc. cbn [app].
    split; [reflexivity|]. repeat split; try (simpl; lia).
    inversion Hvalid as [|? ? H0 Hv1]; subst.
    inversion Hv1 as [|? ? H1 Hv2]; subst.
    inversion Hv2 as [|? ? H2 _]; subst.
    apply Forall_app in Hall. destruct Hall as [Hi' Hall].
    apply Forall_app in Hall. destruct Hall as [Hj' Hk'].
    constructor; [exact H0|]. apply Forall_app. split; [exact Hi'|].
    constructor; [exact H1|]. apply Forall_app. split; [exact Hj'|].
    constructor; [exact H2|exact Hk'].
Qed.

(** X25.  Whatever the triangles, the vertices and the tolerance, the face
    buffer the extraction returns can be turned into the three index arrays
    of the mesh trace without an [IndexError]: every face kept has more than
    two indices, so [f[0]], [f[1]] and [f[2]] exist; the arrays have one
    entry per face, there are no more faces than triangles, and every entry
    is an index into the vertex array. *)
Theorem face_arrays_of_extraction (fuel : nat) (triangles : list (list vertex))
  (tp_verts : list vertex) (tolerance : Q) (faces : list (list nat)) :
  triangles_loop fuel triangles tp_verts tolerance [] = Ret faces ->
  exists i j k : list nat,
    face_index_arrays faces [] [] [] = Ret (i, j, k) /\
    List.length i = List.length faces /\
    List.length j = List.length faces /\
    List.length k = List.length faces /\
    (List.length faces <= List.length triangles)%nat /\
    Forall (fun n => (n < List.length tp_verts)%nat) (i ++ j ++ k).
Proof.
  intros H.
  destruct (triangles_guard _ _ _ _ _ H) as (new & -> & Hlen & Hall).
  cbn [app].
  destruct (face_index_arrays_ok Hall [] [] [])
    as (i & j & k & Hrun & Hi & Hj & Hk & Hv).
  exists i, j, k. cbn [app] in Hrun. repeat split; assumption.
Qed.

End MeshExtraction.




(** The extraction run on the two triangles of a unit square. *)
Example faces_of_square :
  triangles_loop near_point 6
    [[(0, 0, 0); (1, 0, 0); (1, 1, 0)]; [(0, 0, 0); (1, 1, 0); (0, 1, 0)]]
    [(0, 0, 0); (1, 0, 0); (0, 1, 0); (1, 1, 0)] (1 # 10000) []
  = Ret [[0; 1; 3]; [0; 3; 2]]%nat.
Proof. vm_compute. reflexivity. Qed.

(** A triangle with a corner that matches no vertex gives no face. *)
Example face_omitted :
  triangles_loop near_point 6
    [[(0, 0, 0); (1, 0, 0); (5, 5, 5)]; [(0, 0, 0); (1, 1, 0); (0, 1, 0)]]
    [(0, 0, 0); (1, 0, 0); (0, 1, 0); (1, 1, 0)] (1 # 10000) []
  = Ret [[0; 3; 2]]%nat.
Proof. vm_compute. reflexivity. Qed.

Lemma no_faces_at_cap_witness :
  (forall w_v : point,
     lookup_loop near_point 1 w_v [(0, 0, 0)] None 3 = Ret (None, 3)) /\
  triangles_loop near_point 1 [[(0, 0, 0); (0, 0, 0); (0, 0, 0)]]
    [(0, 0, 0)] 3 []
  = Ret [].
Proof.
  apply (@no_faces_at_cap point near_point 0
           [[(0, 0, 0); (0, 0, 0); (0, 0, 0)]] [(0, 0, 0)] 3).
  discriminate.
Defined.


Lemma face_arrays_of_extraction_witness :
  let tp_verts : list point := [(0, 0, 0); (1, 0, 0); (0, 1, 0); (1, 1, 0)] in
  let triangles : list (list point) :=
    [[(0, 0, 0); (1, 0, 0); (1, 1, 0)]; [(0, 0, 0); (1, 1, 0); (0, 1, 0)]] in
  let faces := [[0; 1; 3]; [0; 3; 2]]%nat in
  exists i j k : list nat,
    face_index_arrays faces [] [] [] = Ret (i, j, k) /\
    List.length i = List.length faces /\
    List.length j = List.length faces /\
    List.length k = List.length faces /\
    (List.length faces <= List.length triangles)%nat /\
    Forall (fun n => (n < List.length tp_verts)%nat) (i ++ j ++ k).
Proof.
  cbv zeta.
  apply (@face_arrays_of_extraction point near_point 6
           [[(0, 0, 0); (1, 0, 0); (1, 1, 0)]; [(0, 0, 0); (1, 1, 0); (0, 1, 0)]]
           [(0, 0, 0); (1, 0, 0); (0, 1, 0); (1, 1, 0)] (1 # 10000)).
  vm_compute. reflexivity.
Defined.

End Plotly.

(** ** Plotly.py: the export of a figure to a file *)

Module PlotlyExport.
Import Ascii String.
Import Py.
#[local] Open Scope string_scope.

(** [len(s)] and [s[lo:hi]] on strings. *)
Definition str_len (s : string) : Z := len (list_ascii_of_string s).

Definition str_slice (s : string) (lo hi : Z) : string :=
  string_of_list_ascii (slice (list_ascii_of_string s) lo hi).

(** The lines of every export function that make sure of the extension:
    [ext = path[len(path)-n:len(path)]], then
    [if ext.lower() != e: path = path + e]. *)
Definition with_extension (path : string) (n : Z) (e : string) : string :=
  let ext := str_slice path (str_len path - n) (str_len path) in
  if String.eqb (Vector.lower ext) e then path else path ++ e.

(** The files of the machine: the content at each path, and whether the
    path can be opened for writing at all. *)
Record filesystem : Type := mkFilesystem {
  file : string -> option string;
  openable : string -> bool
}.

(** [os.path.exists] *)
Definition exists_at (fs : filesystem) (path : string) : bool :=
  match file fs path with
  | Some _ => true
  | None => false
  end.

(** The file system after [content] is written at [path]. *)
Definition written (fs : filesystem) (path content : string) : filesystem :=
  mkFilesystem
    (fun q => if String.eqb q path then Some content else file fs q)
    (openable fs).

Section ExportFunctions.

(** A plotly figure, and what [plotly.io.write_json] and
    [plotly.io.write_image] write for it. *)
Variable figure : Type.
Variable write_json : figure -> string.
Variable write_image : figure -> string -> Z -> Z -> string.

(** [Plotly.FigureExportToJSON]; [figure] and [path] are [None] when the
    argument is not a figure, not a string.  [open(path, "x")] fails on a
    file that exists; the failure of either [open] is caught. *)
Definition FigureExportToJSON (fig : option figure) (path : option string)
  (overwrite : bool) (fs : filesystem) : option bool * filesystem :=
  match fig, path with
  | Some fig, Some path =>
      let path := with_extension path 5 ".json" in
      let opened :=
        if overwrite then openable fs path
        else openable fs path && negb (exists_at fs path) in
      if opened then (Some true, written fs path (write_json fig))
      else (None, fs)
  | _, _ => (None, fs)
  end.

(** The three image exports, which differ in the format and the
    extension.  [plotly.io.write_image] on a path that cannot be opened
    raises. *)
Definition export_image (format e : string) (fig : option figure)
  (path : option string) (width height : Z) (overwrite : bool)
  (fs : filesystem) : Vector.result (option bool) * filesystem :=
  match fig, path with
  | Some fig, Some path =>
      let path := with_extension path 4 e in
      if negb overwrite && exists_at fs path then (Vector.Returns None, fs)
      else if openable fs path then
        (Vector.Returns (Some true),
         written fs path (write_image fig format width height))
      else (Vector.Raises, fs)
  | _, _ => (Vector.Returns None, fs)
  end.

Definition FigureExportToPDF := export_image "pdf" ".pdf".
Definition FigureExportToPNG := export_image "png" ".png".
Definition FigureExportToSVG := export_image "svg" ".svg".

End ExportFunctions.

(** *** Lemmas on strings *)

Lemma list_ascii_app (s1 s2 : string) :
  list_ascii_of_string (s1 ++ s2)
  = (list_ascii_of_string s1 ++ list_ascii_of_string s2)%list.
Proof.
  induction s1 as [|c s1 IH]; [reflexivity|].
  cbn [append list_ascii_of_string]. rewrite IH. reflexivity.
Qed.

Lemma str_slice_suffix (path e : string) :
  str_slice (path ++ e) (str_len (path ++ e) - str_len e) (str_len (path ++ e))
  = e.
Proof.
  unfold str_slice, str_len. rewrite list_ascii_app.
  set (l := list_ascii_of_string path). set (le := list_ascii_of_string e).
  pose proof (Speckle.len_nonneg l). pose proof (Speckle.len_nonneg le).
  rewrite Speckle.len_app.
  rewrite Speckle.slice_inside by (rewrite ?Speckle.len_app; lia).
  replace (len l + len le - len le)%Z with (len l) by lia.
  replace (len l + len le - len l)%Z with (len le) by lia.
  unfold len. rewrite !Nat2Z.id.
  rewrite skipn_app, skipn_all, Nat.sub_diag. cbn [skipn app].
  rewrite firstn_all. apply string_of_list_ascii_of_string.
Qed.

(** X26.  The path an export writes to always carries the extension: its
    last characters, in lower case, are the extension, whatever path was
    given; and the step changes nothing on a path that has been through it.
    (The extension is one of ".json", ".pdf", ".png" and ".svg", of the
    length the code slices and in lower case.) *)
Theorem with_extension_suffix (path : string) (n : Z) (e : string) :
  str_len e = n -> Vector.lower e = e ->
  let p := with_extension path n e in
  Vector.lower (str_slice p (str_len p - n) (str_len p)) = e /\
  with_extension p n e = p.
Proof.
  intros Hn He. cbv zeta.
  assert (H : Vector.lower
                (str_slice (with_extension path n e)
                   (str_len (with_extension path n e) - n)
                   (str_len (with_extension path n e))) = e).
  { unfold with_extension.
    destruct (String.eqb (Vector.lower _) e) eqn:E.
    - apply String.eqb_eq in E. exact E.
    - rewrite <- Hn, str_slice_suffix. exact He. }
  split; [exact H|].
  unfold with_extension at 1. rewrite H, String.eqb_refl. reflexivity.
Qed.

Lemma with_extension_suffix_witness :
  let p := with_extension "figure.JSON" 5 ".json" in
  Vector.lower (str_slice p (str_len p - 5) (str_len p)) = ".json" /\
  with_extension p 5 ".json" = p.
Proof.
  apply (@with_extension_suffix "figure.JSON" 5 ".json"); reflexivity.
Defined.

Section ExportProperties.

Variable figure : Type.
Variable write_json : figure -> string.
Variable write_image : figure -> string -> Z -> Z -> string.

(** X27.  With [overwrite] not set, no export touches a file that exists:
    when a file exists at the path with its extension, the JSON export and
    the three image exports return [None] and leave every file as it
    was. *)
Theorem exports_keep_existing_files (fig : option figure)
  (path : string) (width height : Z) (fs : filesystem) :
  (exists_at fs (with_extension path 5 ".json") = true ->
   FigureExportToJSON write_json fig (Some path) false fs = (None, fs)) /\
  (exists_at fs (with_extension path 4 ".pdf") = true ->
   FigureExportToPDF write_image fig (Some path) width height false fs
   = (Vector.Returns None, fs)) /\
  (exists_at fs (with_extension path 4 ".png") = true ->
   FigureExportToPNG write_image fig (Some path) width height false fs
   = (Vector.Returns None, fs)) /\
  (exists_at fs (with_extension path 4 ".svg") = true ->
   FigureExportToSVG write_image fig (Some path) width height false fs
   = (Vector.Returns None, fs)).
Proof.
  unfold FigureExportToJSON, FigureExportToPDF, FigureExportToPNG,
    FigureExportToSVG, export_image.
  repeat split; intros H; destruct fig as [fig|]; try reflexivity;
    cbv zeta; rewrite H; cbn [negb andb];
    rewrite ?andb_false_r; reflexivity.
Qed.

(** X28.  An export that returns [True] has written one file and no other:
    afterwards the path with its extension holds what plotly writes for the
    figure, every other path holds what it held, and the export was given a
    figure. *)
Theorem exports_write_one_file (fig : option figure) (path : string)
  (width height : Z) (overwrite : bool) (fs fs' : filesystem) :
  (FigureExportToJSON write_json fig (Some path) overwrite fs
   = (Some true, fs') ->
   exists f : figure,
     fig = Some f /\
     file fs' (with_extension path 5 ".json") = Some (write_json f) /\
     forall q : string,
       q <> with_extension path 5 ".json" -> file fs' q = file fs q) /\
  (FigureExportToPDF write_image fig (Some path) width height overwrite fs
   = (Vector.Returns (Some true), fs') ->
   exists f : figure,
     fig = Some f /\
     file fs' (with_extension path 4 ".pdf")
     = Some (write_image f "pdf" width height) /\
     forall q : string,
       q <> with_extension path 4 ".pdf" -> file fs' q = file fs q).
Proof.
  split.
  - unfold FigureExportToJSON. destruct fig as [f|]; [|discriminate].
    cbv zeta. destruct (if overwrite then _ else _); [|discriminate].
    intros H. injection H as <-. exists f. split; [reflexivity|].
    cbn [written file]. rewrite String.eqb_refl. split; [reflexivity|].
    intros q Hq. apply String.eqb_neq in Hq. rewrite Hq. reflexivity.
  - unfold FigureExportToPDF, export_image. destruct fig as [f|]; [|discriminate].
    cbv zeta. destruct (negb overwrite && _)%bool; [discriminate|].
    destruct (openable fs _); [|discriminate].
    intros H. injection H as <-. exists f. split; [reflexivity|].
    cbn [written file]. rewrite String.eqb_refl. split; [reflexivity|].
    intros q Hq. apply String.eqb_neq in Hq. rewrite Hq. reflexivity.
Qed.

End ExportProperties.

End PlotlyExport.

(** ** Context.py *)

Module Context.
Import Py.

Section Kernel.

(** The topologies and contexts of the geometry kernel, and its two
    operations, which may raise. *)
Variable topology : Type.
Variable context : Type.
Variable kernel_ByTopologyParameters :
  topology -> R -> R -> R -> outcome context.
Variable kernel_Topology : context -> outcome topology.

(** [Context.ByTopologyParameters]: [try: ... except: context = None]. *)
Definition ByTopologyParameters (t : topology) (u v w : R)
  : outcome (option context) :=
  match kernel_ByTopologyParameters t u v w with
  | Ret c => Ret (Some c)
  | Raise _ => Ret None
  | OutOfFuel => OutOfFuel
  end.

(** [Context.Topology]; on [None] the method call raises and is caught. *)
Definition Topology (c : option context) : outcome (option topology) :=
  match c with
  | Some c =>
      match kernel_Topology c with
      | Ret t => Ret (Some t)
      | Raise _ => Ret None
      | OutOfFuel => OutOfFuel
      end
  | None => Ret None
  end.

(** X29.  Neither function of [Context] raises, nor does [Topology]
    applied to what [ByTopologyParameters] returned: a failure of the
    kernel in either step gives [None], and the composition returns a
    topology exactly when both kernel operations returned. *)
Theorem Context_never_raises (t : topology) (u v w : R) :
  (forall e : exn, ByTopologyParameters t u v w <> Raise e) /\
  (forall (c : option context) (e : exn), Topology c <> Raise e) /\
  (forall e : exn,
     (c <- ByTopologyParameters t u v w ;; Topology c) <> Raise e) /\
  (forall t' : topology,
     (c <- ByTopologyParameters t u v w ;; Topology c) = Ret (Some t') <->
     exists c : context,
       kernel_ByTopologyParameters t u v w = Ret c /\
       kernel_Topology c = Ret t').
Proof.
  unfold ByTopologyParameters, Topology. repeat split.
  - intros e. destruct (kernel_ByTopologyParameters t u v w); discriminate.
  - intros [c|] e; [destruct (kernel_Topology c)|]; discriminate.
  - intros e. destruct (kernel_ByTopologyParameters t u v w) as [c| |];
      cbn [bind]; try discriminate.
    destruct (kernel_Topology c); discriminate.
  - destruct (kernel_ByTopologyParameters t u v w) as [c| |]; cbn [bind];
      try discriminate.
    destruct (kernel_Topology c) as [t0| |] eqn:E; try discriminate.
    intros H. injection H as ->. exists c. split; [reflexivity|exact E].
  - intros (c & -> & Hc). cbn [bind]. rewrite Hc. reflexivity.
Qed.

End Kernel.

End Context.
